(** * goboot/pubsub: the reliable message-channel layer

    A shallow embedding of [pubsub/service.go] (channel registry, error
    translation, retry policy, dead-letter routing, receive loops and the
    UTF-8-safe truncation) together with the properties proved about it.

    Go strings are byte sequences: they are [string] here, one [ascii] per
    byte.  Go's [int], [int64] and [time.Duration] are [Z] with the 64-bit
    wrap-around written out where the code can reach it.  Pointers are
    addresses into the state, nil being [None].  Log output is left out. *)

From Stdlib Require Import ZArith Lia Ascii String DecimalString.
From stdpp Require Import base option list strings gmap.
From Stdlib Require Import DecimalPos.

Local Open Scope Z_scope.

(** ** Results of Go code that can panic *)

Inductive Outcome (A : Type) : Type :=
| Ret (a : A)
| Panic (reason : string).
Arguments Ret {A} a.
Arguments Panic {A} reason.

(** ** Bytes and strings *)

Module GoString.

Definition byte_val (c : ascii) : Z := Z.of_N (N_of_ascii c).

(** [len(s)] *)
Definition len (s : string) : Z := Z.of_nat (String.length s).

(** [s[i]], which panics out of range. *)
Definition index (s : string) (i : nat) : Outcome ascii :=
  match String.get i s with
  | Some c => Ret c
  | None => Panic "index out of range"
  end.

(** The first [n] bytes of [s]. *)
Fixpoint take (n : nat) (s : string) : string :=
  match n, s with
  | O, _ => EmptyString
  | S _, EmptyString => EmptyString
  | S n', String c s' => String c (take n' s')
  end.

(** [s[:n]], which panics when [n] is negative or beyond [len(s)]. *)
Definition slice_to (s : string) (n : Z) : Outcome string :=
  if (n <? 0) || (len s <? n) then Panic "slice bounds out of range"
  else Ret (take (Z.to_nat n) s).

End GoString.

(** ** unicode/utf8 *)

Module utf8.

Import GoString.

(** [RuneStart]: the byte is not a continuation byte. *)
Definition RuneStart (b : ascii) : bool :=
  negb (Z.land (byte_val b) 0xC0 =? 0x80).

(** The [first] table: information about the first byte of an encoding. *)
Definition xx : Z := 0xF1.
Definition first (b : Z) : Z :=
  if b <? 0x80 then 0xF0
  else if b <? 0xC2 then xx
  else if b <? 0xE0 then 0x02
  else if b =? 0xE0 then 0x13
  else if b <? 0xED then 0x03
  else if b =? 0xED then 0x23
  else if b <? 0xF0 then 0x03
  else if b =? 0xF0 then 0x34
  else if b <? 0xF4 then 0x04
  else if b =? 0xF4 then 0x44
  else xx.

(** [acceptRanges]: the range allowed for the second byte. *)
Definition locb : Z := 0x80.
Definition hicb : Z := 0xBF.
Definition acceptRanges (i : Z) : Z * Z :=
  if i =? 0 then (locb, hicb)
  else if i =? 1 then (0xA0, hicb)
  else if i =? 2 then (locb, 0x9F)
  else if i =? 3 then (0x90, hicb)
  else if i =? 4 then (locb, 0x8F)
  else (0, 0).

Definition outside (c lo hi : Z) : bool := (c <? lo) || (hi <? c).

(** [ValidString]: one encoded rune is consumed per round; running out of
    bytes inside a rune is the source's [i+size > n] test. *)
Fixpoint ValidString (s : string) : bool :=
  match s with
  | EmptyString => true
  | String c0 r0 =>
      let si := byte_val c0 in
      if si <? 0x80 then ValidString r0
      else
        let x := first si in
        if x =? xx then false
        else
          let size := Z.land x 7 in
          let accept := acceptRanges (Z.shiftr x 4) in
          match r0 with
          | EmptyString => false
          | String c1 r1 =>
              if size =? 2 then
                if outside (byte_val c1) (fst accept) (snd accept) then false
                else ValidString r1
              else
                match r1 with
                | EmptyString => false
                | String c2 r2 =>
                    if size =? 3 then
                      if outside (byte_val c1) (fst accept) (snd accept) then false
                      else if outside (byte_val c2) locb hicb then false
                      else ValidString r2
                    else
                      match r2 with
                      | EmptyString => false
                      | String c3 r3 =>
                          if outside (byte_val c1) (fst accept) (snd accept) then false
                          else if outside (byte_val c2) locb hicb then false
                          else if outside (byte_val c3) locb hicb then false
                          else ValidString r3
                      end
                end
          end
  end.

End utf8.

(** ** trimLeftBytes *)

(** The loop [for lastRune > 0 && !utf8.RuneStart(str[lastRune]) { lastRune-- }];
    its result is the final [lastRune]. *)
Fixpoint trim_loop (str : string) (lastRune : nat) : Outcome nat :=
  match lastRune with
  | O => Ret O
  | S n =>
      match GoString.index str lastRune with
      | Panic r => Panic r
      | Ret b => if utf8.RuneStart b then Ret lastRune else trim_loop str n
      end
  end.

Definition trimLeftBytes (str : string) (maxBytes : Z) : Outcome string :=
  if GoString.len str <? maxBytes then Ret str
  else
    match GoString.slice_to str maxBytes with
    | Panic r => Panic r
    | Ret res =>
        if utf8.ValidString res then Ret res
        else
          match trim_loop str (Z.to_nat maxBytes) with
          | Panic r => Panic r
          | Ret lastRune => GoString.slice_to res (Z.of_nat lastRune)
          end
    end.

(** ** strconv *)

Module strconv.

Import GoString.

Inductive NumError := ErrSyntax | ErrRange.

Definition maxUint64 : Z := 2 ^ 64 - 1.

(** [lower(c)]: [c | ('x' - 'X')]. *)
Definition lower (c : Z) : Z := Z.lor c 0x20.

(** The digit loop of [ParseUint(s, 10, 64)]; [n] is the value read so
    far.  The result is the value and the error, as in the source. *)
Fixpoint ParseUint_loop (s : string) (n : Z) : Z * option NumError :=
  match s with
  | EmptyString => (n, None)
  | String a s' =>
      let c := byte_val a in
      let digit :=
        if (48 <=? c) && (c <=? 57) then Some (c - 48)
        else if (97 <=? lower c) && (lower c <=? 122) then Some (lower c - 97 + 10)
        else None in
      match digit with
      | None => (0, Some ErrSyntax)
      | Some d =>
          if 10 <=? d then (0, Some ErrSyntax)
          else if maxUint64 / 10 + 1 <=? n then (maxUint64, Some ErrRange)
          else
            let n10 := n * 10 in
            let n1 := (n10 + d) mod 2 ^ 64 in
            if (n1 <? n10) || (maxUint64 <? n1) then (maxUint64, Some ErrRange)
            else ParseUint_loop s' n1
      end
  end.

Definition ParseUint (s : string) : Z * option NumError :=
  match s with
  | EmptyString => (0, Some ErrSyntax)
  | _ => ParseUint_loop s 0
  end.

(** [ParseInt(s, 10, 64)] *)
Definition ParseInt (s : string) : Z * option NumError :=
  match s with
  | EmptyString => (0, Some ErrSyntax)
  | String a rest =>
      let neg := byte_val a =? 45 in
      let digits := if (byte_val a =? 43) || neg then rest else s in
      let '(un, err) := ParseUint digits in
      match err with
      | Some ErrSyntax => (0, Some ErrSyntax)
      | _ =>
          let cutoff := 2 ^ 63 in
          if negb neg && (cutoff <=? un) then (cutoff - 1, Some ErrRange)
          else if neg && (cutoff <? un) then (- cutoff, Some ErrRange)
          else (if neg then - un else un, None)
      end
  end.

(** [FormatInt(i, 10)] *)
Definition FormatInt (i : Z) : string := NilZero.string_of_int (Z.to_int i).

End strconv.

(** [int64] arithmetic wraps around. *)
Definition int64 (z : Z) : Z := (z + 2 ^ 63) mod 2 ^ 64 - 2 ^ 63.

(** ** time *)

Module time.

(** A [Duration] is an [int64] count of nanoseconds. *)
Definition minDuration : Z := - 2 ^ 63.
Definition maxDuration : Z := 2 ^ 63 - 1.
Definition Second : Z := 1000000000.
Definition Minute : Z := 60 * Second.

(** A [Time] is an instant, in nanoseconds on an absolute axis.
    [t.Sub(u)] saturates at the largest and smallest [Duration]. *)
Definition Sub (t u : Z) : Z :=
  let d := t - u in
  if d <? minDuration then minDuration
  else if maxDuration <? d then maxDuration
  else d.

(** [Since(t)], at the instant [now]. *)
Definition Since (now t : Z) : Z := Sub now t.

End time.

(** ** Errors *)

(** The error values the package meets.  [ErrClosed] is the package's
    sentinel, compared by identity.  [New], [Errorf] and [Wrapf] are those
    of github.com/pkg/errors and keep the format and its arguments.
    [StatusError] is an error with a [GRPCStatus] method, [OtherError] any
    other error value; both carry the text of their [Error()]. *)
Inductive error : Type :=
| ErrClosed
| New (msg : string)
| Errorf (format : string) (args : list string)
| Wrapf (cause : error) (format : string) (args : list string)
| StatusError (code : Z) (text : string)
| OtherError (text : string).

Module codes.
Definition Canceled : Z := 1.
Definition Unknown : Z := 2.
End codes.

Module status.
(** [FromError] on a non-nil error: the status code and whether the error
    carries a gRPC status; an error without one is reported as
    [Unknown], [false]. *)
Definition FromError (err : error) : Z * bool :=
  match err with
  | StatusError c _ => (c, true)
  | _ => (codes.Unknown, false)
  end.
End status.

(** [errors.Cause]: the innermost wrapped error. *)
Fixpoint Cause (err : error) : error :=
  match err with
  | Wrapf c _ _ => Cause c
  | _ => err
  end.

(** [err.Error()], given [fmt.Sprintf]. *)
Fixpoint Error (sprintf : string -> list string -> string) (err : error) : string :=
  match err with
  | ErrClosed => "pubsub Service has been closed"
  | New msg => msg
  | Errorf f args => sprintf f args
  | Wrapf c f args => sprintf f args +:+ ": " +:+ Error sprintf c
  | StatusError _ text => text
  | OtherError text => text
  end.

(** [translateError(err, wrapMsg, args...)] *)
Definition translateError (err : option error) (wrapMsg : string) (args : list string)
  : option error :=
  match err with
  | Some e =>
      let '(code, ok) := status.FromError e in
      if negb ok || (code =? codes.Canceled) then Some ErrClosed
      else Some (Wrapf e wrapMsg args)
  | None => None
  end.

(** ** Data model *)

(** Addresses of heap objects. *)
Abbreviation loc := nat.

Module Channel.
Record t := mk {
  ID : string;
  TopicID : string;
  SubscriptionID : string;
  MaxRetryAge : Z
}.
Definition with_ID (id : string) (c : t) : t :=
  mk id (TopicID c) (SubscriptionID c) (MaxRetryAge c).
Definition with_MaxRetryAge (d : Z) (c : t) : t :=
  mk (ID c) (TopicID c) (SubscriptionID c) d.
End Channel.

(** An [Option] is a closure over the channel it was made from; there are
    two makers, so the closures are their constructors.  The channel is a
    pointer, [None] being nil. *)
Inductive Option :=
| WithChannel (ch : option loc)
| WithDeadLetter (ch : option loc).

Module Service.
(** [Client] is the embedded [*gpubsub.Client], nil until [Configure];
    a connected client is known by its project.  [Channels] is the map
    [NewPubSubService] makes; its values are pointers. *)
Record t := mk {
  Client : option string;
  Channels : gmap string (option loc);
  DeadLetterChannel : option loc;
  projectID : string;
  options : list Option
}.
Definition with_Client (c : option string) (s : t) : t :=
  mk c (Channels s) (DeadLetterChannel s) (projectID s) (options s).
Definition with_Channels (m : gmap string (option loc)) (s : t) : t :=
  mk (Client s) m (DeadLetterChannel s) (projectID s) (options s).
Definition with_DeadLetterChannel (d : option loc) (s : t) : t :=
  mk (Client s) (Channels s) d (projectID s) (options s).
End Service.

Module Message.
(** [gpubsub.Message]; [Attributes] is a Go map, held by reference
    ([None] is the nil map). *)
Record t := mk {
  ID : string;
  Data : string;
  Attributes : option loc;
  PublishTime : Z
}.
End Message.

Module RichMessage.
(** The embedded [*gpubsub.Message] and the two back-references; each
    can be nil.  The service is read, never written, through a
    [RichMessage], so the reference is the service's value. *)
Record t := mk {
  Message : option Message.t;
  Service : option Service.t;
  Channel : option loc
}.
End RichMessage.

(** Calls made on the transport. *)
Inductive Call :=
| CPublish (topic data : string) (attrs : loc) (content : gmap string string)
| CAck (id : string)
| CNack (id : string)
| CSubscriptionExists (sub : string)
| CSubscriptionDelete (sub : string)
| CTopicExists (topic : string)
| CTopicDelete (topic : string)
| CReceive (sub : string).

(** What lies outside the package: formatting, the clock and the answers of
    the transport.  Each answer may depend on the calls made so far. *)
Record Env := {
  Sprintf : string -> list string -> string;
  Now : list Call -> Z;
  NewClient : string -> option error;
  Publish_Get : list Call -> string -> string -> gmap string string -> option error;
  Subscription_Exists : list Call -> string -> bool * option error;
  Subscription_Delete : list Call -> string -> option error;
  Topic_Exists : list Call -> string -> bool * option error;
  Topic_Delete : list Call -> string -> option error;
  (** The messages a subscription delivers, one at a time and in this
      order, for as long as the receive loop stays open, and the error the
      loop ends with when they are exhausted (nil when the caller's
      context is done). *)
  Subscription_Receive : list Call -> string -> list Message.t * option error
}.

(** The mutable state: channel objects and attribute maps by address, and
    the transport calls made so far, oldest first. *)
Record World := mkWorld {
  chans : loc -> Channel.t;
  maps : list (gmap string string);
  calls : list Call
}.

(** ** The monad of Go code: state and panics *)

Definition M (A : Type) : Type := World -> Outcome A * World.

Definition ret {A} (a : A) : M A := fun w => (Ret a, w).

Definition bind {A B} (m : M A) (k : A -> M B) : M B :=
  fun w =>
    match m w with
    | (Ret a, w') => k a w'
    | (Panic r, w') => (Panic r, w')
    end.

Notation "'let*' x ':=' m 'in' k" := (bind m (fun x => k))
  (at level 10, x pattern, m at level 100, k at level 200, only parsing).

Definition panic {A} (r : string) : M A := fun w => (Panic r, w).

Definition lift {A} (o : Outcome A) : M A := fun w => (o, w).

(** Following a pointer that may be nil. *)
Definition deref {A} (p : option A) : M A :=
  match p with
  | Some a => ret a
  | None => panic "nil pointer dereference"
  end.

Definition read_chan (l : loc) : M Channel.t := fun w => (Ret (chans w l), w).

Definition write_chan (l : loc) (c : Channel.t) : M unit :=
  fun w =>
    (Ret tt, mkWorld (fun l' => if Nat.eqb l' l then c else chans w l') (maps w) (calls w)).

(** [make(map[string]string)] *)
Definition make_map : M loc :=
  fun w => (Ret (length (maps w)), mkWorld (chans w) (maps w ++ [∅]) (calls w)).

(** The content of a map; the nil map reads as empty, and so does an
    address at which no map has been made. *)
Definition map_content (w : World) (p : option loc) : gmap string string :=
  match p with
  | Some l => default ∅ (maps w !! l)
  | None => ∅
  end.

(** [m[k] = v] *)
Definition map_store (l : loc) (k v : string) : M unit :=
  fun w => (Ret tt, mkWorld (chans w) (alter (insert k v) l (maps w)) (calls w)).

(** [val, ok := m[k]] *)
Definition map_load (l : loc) (k : string) : M (option string) :=
  fun w => (Ret (map_content w (Some l) !! k), w).

(** [for k, v := range src { dst[k] = v }] *)
Definition range_copy (src : option loc) (dst : loc) : M unit :=
  fun w =>
    (Ret tt,
     mkWorld (chans w)
       (alter (fun d => map_fold (fun k v acc => <[k:=v]> acc) d (map_content w src)) dst (maps w))
       (calls w)).

Definition call (c : Call) : M unit :=
  fun w => (Ret tt, mkWorld (chans w) (maps w) (calls w ++ [c])).

Definition ask_calls : M (list Call) := fun w => (Ret (calls w), w).

(** ** The channel registry *)

Definition defaultDeadLetterName : string := "dead-letter".

(** [NewPubSubService(projectID, options...)] *)
Definition NewPubSubService (projectID : string) (options : list Option) : Service.t :=
  Service.mk None ∅ None projectID options.

(** [s.addChannel(ch)]: [s.Channels[ch.ID] = ch] *)
Definition addChannel (s : Service.t) (ch : option loc) : M Service.t :=
  let* l := deref ch in
  let* c := read_chan l in
  ret (Service.with_Channels (<[Channel.ID c := ch]> (Service.Channels s)) s).

(** [s.Channel(channelID)]: [s.Channels[channelID]], nil for a missing key. *)
Definition Channel (s : Service.t) (channelID : string) : option loc :=
  default None (Service.Channels s !! channelID).

(** Running the closure an option stands for. *)
Definition run_option (o : Option) (cl : Service.t) : M Service.t :=
  match o with
  | WithChannel ch =>
      let* l := deref ch in
      let* c := read_chan l in
      let* _ := (if Channel.MaxRetryAge c =? 0
                 then write_chan l (Channel.with_MaxRetryAge (time.Minute * 2) c)
                 else ret tt) in
      addChannel cl ch
  | WithDeadLetter ch =>
      let* l := deref ch in
      let* c := read_chan l in
      let* _ := (if String.eqb (Channel.ID c) ""
                 then write_chan l (Channel.with_ID defaultDeadLetterName c)
                 else ret tt) in
      let* cl := addChannel cl ch in
      ret (Service.with_DeadLetterChannel ch cl)
  end.

Fixpoint run_options (os : list Option) (s : Service.t) : M Service.t :=
  match os with
  | [] => ret s
  | o :: os' => let* s := run_option o s in run_options os' s
  end.

(** [s.Configure(appctx)]: the options run in order, then the client
    connects; a failed connection is logged at panic level. *)
Definition Configure (env : Env) (s : Service.t) : M Service.t :=
  let* s := run_options (Service.options s) s in
  match NewClient env (Service.projectID s) with
  | Some _ => panic "failed to connect to gcloud pubsub"
  | None => ret (Service.with_Client (Some (Service.projectID s)) s)
  end.

(** [s.Topic(id)] and [s.Subscription(id)]: handles, known by their full
    names; both go through the embedded client. *)
Definition Topic (s : Service.t) (id : string) : M string :=
  let* project := deref (Service.Client s) in
  ret ("projects/" +:+ project +:+ "/topics/" +:+ id).

Definition Subscription (s : Service.t) (id : string) : M string :=
  let* project := deref (Service.Client s) in
  ret ("projects/" +:+ project +:+ "/subscriptions/" +:+ id).

(** ** Transport calls *)

(** [topic.Publish(ctx, &gpubsub.Message{Data, Attributes}).Get(ctx)] *)
Definition Publish (env : Env) (topic data : string) (attrs : loc) : M (option error) :=
  fun w =>
    let content := map_content w (Some attrs) in
    (Ret (Publish_Get env (calls w) topic data content),
     mkWorld (chans w) (maps w) (calls w ++ [CPublish topic data attrs content])).

(** [msg.Ack()] and [msg.Nack()], promoted from the embedded message. *)
Definition Ack (msg : RichMessage.t) : M unit :=
  let* m := deref (RichMessage.Message msg) in
  call (CAck (Message.ID m)).

Definition Nack (msg : RichMessage.t) : M unit :=
  let* m := deref (RichMessage.Message msg) in
  call (CNack (Message.ID m)).

(** ** Dead-lettering and the retry policy *)

(** [msg.DeadLetter(ctx, cause)] *)
Definition DeadLetter (env : Env) (msg : RichMessage.t) (cause : option error)
  : M (option error) :=
  let* s := deref (RichMessage.Service msg) in
  match Service.DeadLetterChannel s with
  | None => ret (Some (New "no deadletter channel configured"))
  | Some dl =>
      let* newMap := make_map in
      let* m := deref (RichMessage.Message msg) in
      let* _ := range_copy (Message.Attributes m) newMap in
      let* _ := map_store newMap "originalMessageID" (Message.ID m) in
      let* l := deref (RichMessage.Channel msg) in
      let* ch := read_chan l in
      let* _ := map_store newMap "originalTopicID" (Channel.TopicID ch) in
      let* _ := map_store newMap "originalSubscriptionID" (Channel.SubscriptionID ch) in
      let* c := deref cause in
      let* text := lift (trimLeftBytes (Error (Sprintf env) c) 1024) in
      let* _ := map_store newMap "error" text in
      let* cur := map_load newMap "deadLetterCount" in
      let* _ := (match cur with
                 | Some val =>
                     match strconv.ParseInt val with
                     | (i, None) =>
                         map_store newMap "deadLetterCount" (strconv.FormatInt (int64 (i + 1)))
                     | (_, Some _) => ret tt
                     end
                 | None => map_store newMap "deadLetterCount" "1"
                 end) in
      let* dlch := read_chan dl in
      let* topic := Topic s (Channel.TopicID dlch) in
      let* err := Publish env topic (Message.Data m) newMap in
      match err with
      | Some e =>
          let* _ := Nack msg in
          ret (Some (Wrapf e "failed to sent message to dead letter topic %q" [topic]))
      | None =>
          let* _ := Ack msg in
          ret None
      end
  end.

(** [msg.RetryableError(ctx, cause)] *)
Definition RetryableError (env : Env) (msg : RichMessage.t) (cause : option error)
  : M (option error) :=
  let* m := deref (RichMessage.Message msg) in
  let* cs := ask_calls in
  let* l := deref (RichMessage.Channel msg) in
  let* ch := read_chan l in
  if Channel.MaxRetryAge ch <? time.Since (Now env cs) (Message.PublishTime m)
  then DeadLetter env msg cause
  else
    let* _ := Nack msg in
    ret None.

(** ** Channel operations *)

(** [s.DeleteChannel(channel)] *)
Definition DeleteChannel (env : Env) (s : Service.t) (channel : string) : M (option error) :=
  match Channel s channel with
  | None => ret (Some (Errorf "channel %q not found" [channel]))
  | Some l =>
      let* ch := read_chan l in
      let subID := Channel.SubscriptionID ch in
      let topicID := Channel.TopicID ch in
      (* [returned] is [Some err] when the subscription part returns *)
      let* returned :=
        (if String.eqb subID "" then ret None
         else
           let* sub := Subscription s subID in
           let* cs := ask_calls in
           let* _ := call (CSubscriptionExists sub) in
           match Subscription_Exists env cs sub with
           | (_, Some err) =>
               ret (Some (translateError (Some err) "failed to retrieve subscription %q" [subID]))
           | (true, None) =>
               let* cs := ask_calls in
               let* _ := call (CSubscriptionDelete sub) in
               match Subscription_Delete env cs sub with
               | Some err =>
                   ret (Some (translateError (Some err) "failed to delete subscription %q" [subID]))
               | None => ret None
               end
           | (false, None) => ret None
           end) in
      match returned with
      | Some err => ret err
      | None =>
          let* topic := Topic s topicID in
          let* cs := ask_calls in
          let* _ := call (CTopicExists topic) in
          match Topic_Exists env cs topic with
          | (_, Some err) => ret (translateError (Some err) "failed to retrieve topic %q" [topicID])
          | (true, None) =>
              let* cs := ask_calls in
              let* _ := call (CTopicDelete topic) in
              match Topic_Delete env cs topic with
              | Some err => ret (translateError (Some err) "failed to delete topic %q" [topicID])
              | None => ret None
              end
          | (false, None) => ret None
          end
      end
  end.

(** The receive loop of a subscription, [sub.Receive(ctx, f)]: the
    callback runs once per delivered message; the loop ends with nil once
    its context is cancelled, which the callback's own state [st] tells,
    and otherwise when the deliveries end. *)
Fixpoint receive_loop {S : Type} (f : Message.t -> S -> M S) (cancelled : S -> bool)
    (deliveries : list Message.t) (final : option error) (st : S) : M (S * option error) :=
  if cancelled st then ret (st, None)
  else
    match deliveries with
    | [] => ret (st, final)
    | m :: rest =>
        let* st' := f m st in
        receive_loop f cancelled rest final st'
    end.

Definition sub_Receive {S : Type} (env : Env) (sub : string)
    (f : Message.t -> S -> M S) (cancelled : S -> bool) (st : S) : M (S * option error) :=
  let* cs := ask_calls in
  let* _ := call (CReceive sub) in
  let '(deliveries, final) := Subscription_Receive env cs sub in
  receive_loop f cancelled deliveries final st.

(** [s.Receive(ctx, channel, f)] *)
Definition Receive (env : Env) (s : Service.t) (channel : string)
    (f : RichMessage.t -> M unit) : M (option error) :=
  match Channel s channel with
  | None => ret (Some (Errorf "channel %q not found" [channel]))
  | Some l =>
      let* ch := read_chan l in
      if String.eqb (Channel.SubscriptionID ch) ""
      then ret (Some (Errorf "channel %q does not have a subscription" [channel]))
      else
        let* sub := Subscription s (Channel.SubscriptionID ch) in
        let* r := sub_Receive env sub
                    (fun m (_ : unit) => f (RichMessage.mk (Some m) (Some s) (Some l)))
                    (fun _ => false) tt in
        ret (translateError (snd r) "receiving message from subscription %q failed"
               [Channel.SubscriptionID ch])
  end.

(** The callback of [ReceiveNr]; its state is the slice [msgs] and whether
    [cancel] has been called. *)
Definition ReceiveNr_callback (s : Service.t) (l : loc) (nrOfMessages : Z)
    (msg : Message.t) (st : list RichMessage.t * bool) : M (list RichMessage.t * bool) :=
  let* _ := call (CAck (Message.ID msg)) in
  let msgs := fst st ++ [RichMessage.mk (Some msg) (Some s) (Some l)] in
  if nrOfMessages <=? Z.of_nat (length msgs) then ret (msgs, true)
  else ret (msgs, snd st).

(** [s.ReceiveNr(ctx, channel, nrOfMessages)] *)
Definition ReceiveNr (env : Env) (s : Service.t) (channel : string) (nrOfMessages : Z)
  : M (list RichMessage.t * option error) :=
  match Channel s channel with
  | None => ret ([], Some (Errorf "channel %q not found" [channel]))
  | Some l =>
      let* ch := read_chan l in
      let* sub := Subscription s (Channel.SubscriptionID ch) in
      let* r := sub_Receive env sub (ReceiveNr_callback s l nrOfMessages) snd ([], false) in
      match snd r with
      | Some err =>
          ret ([], translateError (Some err) "receiving message from subscription %q failed"
                     [Channel.SubscriptionID ch])
      | None => ret (fst (fst r), None)
      end
  end.

(** [s.PublishEvent(ctx, channel, eventName, payload)]; the payload enters
    only through [json.Marshal(payload)], whose result [marshalled] is. *)
Definition PublishEvent (env : Env) (s : Service.t) (channel eventName : string)
    (marshalled : string * option error) : M (option error) :=
  match Channel s channel with
  | None => ret (Some (Errorf "channel %q not found" [channel]))
  | Some l =>
      let* ch := read_chan l in
      match marshalled with
      | (_, Some err) =>
          ret (Some (Wrapf err "failed to marshal payload for event %q on t %q"
                       [eventName; Channel.TopicID ch]))
      | (bytes, None) =>
          let* t := Topic s (Channel.TopicID ch) in
          let* attrs := make_map in
          let* _ := map_store attrs "event" eventName in
          let* err := Publish env t bytes attrs in
          match err with
          | Some e =>
              ret (translateError (Some e) "could not publish event %q to t %q"
                     [eventName; Channel.TopicID ch])
          | None => ret None
          end
      end
  end.

(** The content of the clone [DeadLetter] publishes, as its statements
    build it from the content [original] of the message's attributes. *)
Definition dead_letter_attributes (original : gmap string string)
    (id topicID subID text : string) : gmap string string :=
  let m := <["error" := text]>
             (<["originalSubscriptionID" := subID]>
                (<["originalTopicID" := topicID]>
                   (<["originalMessageID" := id]> original))) in
  match m !! "deadLetterCount" with
  | Some val =>
      match strconv.ParseInt val with
      | (i, None) => <["deadLetterCount" := strconv.FormatInt (int64 (i + 1))]> m
      | (_, Some _) => m
      end
  | None => <["deadLetterCount" := "1"]> m
  end.

(** A call that, if it publishes, publishes the map at address [a]. *)
Definition publishes_only (a : loc) (c : Call) : Prop :=
  match c with
  | CPublish _ _ a' _ => a' = a
  | _ => True
  end.

(** The transport's own cancellation signal: a gRPC status whose code is
    [Canceled]. *)
Definition is_cancellation (err : error) : bool :=
  match err with
  | StatusError c _ => c =? codes.Canceled
  | _ => false
  end.

(** ** The set-up of the package's tests *)

Module Fixture.

Definition nihongo : string := "日本語".

(** A one-byte string that is not valid UTF-8. *)
Definition invalid_byte : string := String (Ascii.ascii_of_N 255) EmptyString.

Definition test_channel : Channel.t :=
  Channel.mk "test-channel" "test-topic" "test-subscription" 0.
Definition without_subscription : Channel.t :=
  Channel.mk "without-subscription" "test-topic-without-subscription" "" 0.
Definition dead_letter : Channel.t :=
  Channel.mk "" "dead-letter-topic" "dead-letter-subscription" 0.

(** The three channel objects the tests make, at addresses 0, 1 and 2. *)
Definition heap : loc -> Channel.t :=
  fun l => match l with O => test_channel | 1%nat => without_subscription | _ => dead_letter end.

(** One attribute map, at address 0: that of a published event. *)
Definition world : World := mkWorld heap [{["event" := "ev1"]}] [].

Definition options (deadLetter : bool) : list Option :=
  [WithChannel (Some 0%nat); WithChannel (Some 1%nat)]
  ++ (if deadLetter then [WithDeadLetter (Some 2%nat)] else []).

(** A transport on which everything succeeds, a subscription delivering
    [deliveries], and the clock reading [now]. *)
Definition env (now : Z) (publish : option error) (deliveries : list Message.t) : Env :=
  {| Sprintf := fun format args => String.concat "|" (format :: args);
     Now := fun _ => now;
     NewClient := fun _ => None;
     Publish_Get := fun _ _ _ _ => publish;
     Subscription_Exists := fun _ _ => (true, None);
     Subscription_Delete := fun _ _ => None;
     Topic_Exists := fun _ _ => (true, None);
     Topic_Delete := fun _ _ => None;
     Subscription_Receive := fun _ _ => (deliveries, None) |}.

Definition env0 : Env := env 0 None [].

(** The service and the channel objects once [Configure] has run. *)
Definition configured (deadLetter : bool) : Outcome Service.t * World :=
  Configure env0 (NewPubSubService "metrix-io" (options deadLetter)) world.

Definition service (deadLetter : bool) : Service.t :=
  match fst (configured deadLetter) with
  | Ret s => s
  | Panic _ => NewPubSubService "metrix-io" []
  end.

Definition world' (deadLetter : bool) : World := snd (configured deadLetter).

Definition errTest : error := OtherError "test error".

(** A message published at instant 0 and received on "test-channel". *)
Definition message : Message.t := Message.mk "m1" "payload" (Some 0%nat) 0.

Definition rich (deadLetter : bool) : RichMessage.t :=
  RichMessage.mk (Some message) (Some (service deadLetter)) (Some 0%nat).

(** The configured world of the dead-letter tests, its one attribute map
    replaced by [attrs]. *)
Definition world_with (attrs : gmap string string) : World :=
  mkWorld (chans (world' true)) [attrs] [].

Definition message2 : Message.t := Message.mk "m2" "payload2" None 0.

Definition errUnavailable : error := StatusError 14 "rpc error: code = Unavailable".

End Fixture.

(** ** Further definitions *)

(** Position [k] of [s] is past its last byte or holds a byte that starts a
    rune. *)
Definition rune_boundary (s : string) (k : nat) : bool :=
  match String.get k s with
  | Some b => utf8.RuneStart b
  | None => true
  end.

(** [s.DeleteAll()].  Go leaves the order in which a map is ranged over
    open: [order] is the values of [s.Channels] in the order of this run. *)
Fixpoint DeleteAll (env : Env) (s : Service.t) (order : list (option loc))
  : M (option error) :=
  match order with
  | [] => ret None
  | ch :: rest =>
      let* l := deref ch in
      let* c := read_chan l in
      let* err := DeleteChannel env s (Channel.ID c) in
      match err with
      | Some e => ret (Some e)
      | None => DeleteAll env s rest
      end
  end.

(** [order] lists the values of the registry, each entry once. *)
Definition ranges_over (s : Service.t) (order : list (option loc)) : Prop :=
  order ≡ₚ (map_to_list (Service.Channels s)).*2.

(** Every entry of the registry holds a channel, and the ID that channel
    has now is a key of the registry. *)
Definition registry_closed (s : Service.t) (w : World) : Prop :=
  forall k p,
    Service.Channels s !! k = Some p ->
    exists l, p = Some l /\ Channel s (Channel.ID (chans w l)) <> None.

(** An error [translateError] can return. *)
Definition translated (e : error) : Prop :=
  e = ErrClosed \/ exists cause format args, e = Wrapf cause format args.

(** The calls that only ask whether a resource exists. *)
Definition is_existence_check (c : Call) : Prop :=
  match c with
  | CSubscriptionExists _ | CTopicExists _ => True
  | _ => False
  end.



(** ** Creating topics and subscriptions *)

Module Topology.

(** The calls of [EnsureTopic] and [EnsureSubscription] on the transport. *)
Inductive Call :=
| TopicExists (topic : string)
| CreateTopic (topic : string)
| SubscriptionExists (sub : string)
| CreateSubscription (sub topic : string) (ackDeadline : Z).

(** The transport as a store: the topics, the subscriptions with their topic
    and acknowledgement deadline, and the calls made so far, oldest first. *)
Record Cloud := mkCloud {
  topics : gset string;
  subscriptions : gmap string (string * Z);
  history : list Call
}.

(** The error, if any, with which the transport fails a call, given the
    calls made before it. *)
Definition Faults : Type := list Call -> Call -> option error.

(** [fmt.Errorf(format, args..., err)] with the verb [%w] for [err]. *)
Inductive wrapped := FmtErrorf (format : string) (args : list string) (err : error).

Definition Unwrap (e : wrapped) : error :=
  match e with FmtErrorf _ _ err => err end.

Definition NotFound : error := StatusError 5 "rpc error: code = NotFound".

(** One call: it is recorded, and fails when the transport does. *)
Definition attempt (faults : Faults) (call : Call) (c : Cloud) : option error * Cloud :=
  (faults (history c) call, mkCloud (topics c) (subscriptions c) (history c ++ [call])).

(** [s.EnsureTopic(topicID)] *)
Definition EnsureTopic (faults : Faults) (s : Service.t) (topicID : string) (c : Cloud)
  : Outcome (option wrapped) * Cloud :=
  match Service.Client s with
  | None => (Panic "nil pointer dereference", c)
  | Some project =>
      let topic := "projects/" +:+ project +:+ "/topics/" +:+ topicID in
      let '(err, c1) := attempt faults (TopicExists topic) c in
      match err with
      | Some err =>
          (Ret (Some (FmtErrorf "checking if topic %s exists: %w" [topicID] err)), c1)
      | None =>
          if decide (topic ∈ topics c1) then (Ret None, c1)
          else
            let '(err, c2) := attempt faults (CreateTopic topic) c1 in
            match err with
            | Some err => (Ret (Some (FmtErrorf "creating topic %s: %w" [topicID] err)), c2)
            | None =>
                (Ret None, mkCloud ({[topic]} ∪ topics c2) (subscriptions c2) (history c2))
            end
      end
  end.

(** [s.EnsureSubscription(topicID, subID)]; the transport refuses a
    subscription to a topic it does not have. *)
Definition EnsureSubscription (faults : Faults) (s : Service.t) (topicID subID : string)
    (c : Cloud) : Outcome (option wrapped) * Cloud :=
  match Service.Client s with
  | None => (Panic "nil pointer dereference", c)
  | Some project =>
      let sub := "projects/" +:+ project +:+ "/subscriptions/" +:+ subID in
      let topic := "projects/" +:+ project +:+ "/topics/" +:+ topicID in
      let '(err, c1) := attempt faults (SubscriptionExists sub) c in
      match err with
      | Some err =>
          (Ret (Some (FmtErrorf "checking if subscriptions %s exists: %w" [subID] err)), c1)
      | None =>
          if decide (is_Some (subscriptions c1 !! sub)) then (Ret None, c1)
          else
            let '(err, c2) :=
              attempt faults (CreateSubscription sub topic (10 * time.Second)) c1 in
            match err with
            | Some err =>
                (Ret (Some (FmtErrorf "creating subscription %s: %w" [subID] err)), c2)
            | None =>
                if decide (topic ∈ topics c2)
                then (Ret None,
                      mkCloud (topics c2)
                        (<[sub := (topic, 10 * time.Second)]> (subscriptions c2)) (history c2))
                else (Ret (Some (FmtErrorf "creating subscription %s: %w" [subID] NotFound)), c2)
            end
      end
  end.

(** [s.CreateAll()]; [order] is the values of [s.Channels] in the order of
    this run, [chans] the channel objects. *)
Fixpoint CreateAll (faults : Faults) (chans : loc -> Channel.t) (s : Service.t)
    (order : list (option loc)) (c : Cloud) : Outcome (option wrapped) * Cloud :=
  match order with
  | [] => (Ret None, c)
  | None :: _ => (Panic "nil pointer dereference", c)
  | Some l :: rest =>
      let ch := chans l in
      match EnsureTopic faults s (Channel.TopicID ch) c with
      | (Ret None, c1) =>
          if String.eqb (Channel.SubscriptionID ch) "" then CreateAll faults chans s rest c1
          else
            match EnsureSubscription faults s (Channel.TopicID ch) (Channel.SubscriptionID ch) c1
            with
            | (Ret None, c2) => CreateAll faults chans s rest c2
            | stopped => stopped
            end
      | stopped => stopped
      end
  end.

(** The resources of a channel, by their full names, are on the transport. *)
Definition provisioned (project : string) (ch : Channel.t) (c : Cloud) : Prop :=
  ("projects/" +:+ project +:+ "/topics/" +:+ Channel.TopicID ch) ∈ topics c
  /\ (Channel.SubscriptionID ch <> "" ->
      is_Some (subscriptions c
                 !! ("projects/" +:+ project +:+ "/subscriptions/" +:+ Channel.SubscriptionID ch))).

(** A call that creates nothing. *)
Definition is_check (call : Call) : Prop :=
  match call with
  | TopicExists _ | SubscriptionExists _ => True
  | _ => False
  end.

Definition no_faults : Faults := fun _ _ => None.

Definition empty : Cloud := mkCloud ∅ ∅ [].

End Topology.

(** ** Further set-ups *)

Module Scenario.

(** A transport on which [sub_exists] and [topic_exists] are the answers to
    every existence check and every other call succeeds; a subscription
    delivers [deliveries] and then ends its loop with [final]. *)
Definition env (sub_exists topic_exists : bool * option error)
    (deliveries : list Message.t) (final : option error) : Env :=
  {| Sprintf := fun format args => String.concat "|" (format :: args);
     Now := fun _ => 0;
     NewClient := fun _ => None;
     Publish_Get := fun _ _ _ _ => None;
     Subscription_Exists := fun _ _ => sub_exists;
     Subscription_Delete := fun _ _ => None;
     Topic_Exists := fun _ _ => topic_exists;
     Topic_Delete := fun _ _ => None;
     Subscription_Receive := fun _ _ => (deliveries, final) |}.

(** Nothing exists on the transport. *)
Definition absent : Env := env (false, None) (false, None) [] None.

(** The values of the registry of the tests, in one order of ranging. *)
Definition order (deadLetter : bool) : list (option loc) :=
  (map_to_list (Service.Channels (Fixture.service deadLetter))).*2.

(** A world whose one attribute map carries the count [v]. *)
Definition counted (v : string) : World :=
  Fixture.world_with {["deadLetterCount" := v]}.

(** The transport once [CreateAll] has run on an empty one that does not
    fail. *)
Definition cloud_after : Topology.Cloud :=
  snd (Topology.CreateAll Topology.no_faults (chans (Fixture.world' true))
         (Fixture.service true) (order true) Topology.empty).

End Scenario.

(** The number a sequence of decimal digits stands for, most significant
    digit first, when the digits before it gave [n]. *)
Fixpoint uint_value (d : Decimal.uint) (n : Z) : Z :=
  match d with
  | Decimal.Nil => n
  | Decimal.D0 d => uint_value d (10 * n)
  | Decimal.D1 d => uint_value d (10 * n + 1)
  | Decimal.D2 d => uint_value d (10 * n + 2)
  | Decimal.D3 d => uint_value d (10 * n + 3)
  | Decimal.D4 d => uint_value d (10 * n + 4)
  | Decimal.D5 d => uint_value d (10 * n + 5)
  | Decimal.D6 d => uint_value d (10 * n + 6)
  | Decimal.D7 d => uint_value d (10 * n + 7)
  | Decimal.D8 d => uint_value d (10 * n + 8)
  | Decimal.D9 d => uint_value d (10 * n + 9)
  end.

(** * Properties *)

(** ** Truncation *)

Section Truncation.

Import GoString.

Lemma get_None (s : string) (n : nat) :
  String.get n s = None <-> (String.length s <= n)%nat.
Proof.
  revert n. induction s as [|c s IH]; intros [|n]; simpl; try (split; [lia | auto]).
  - split; [discriminate | lia].
  - rewrite IH. lia.
Qed.

Lemma length_take (n : nat) (s : string) :
  String.length (take n s) = Nat.min n (String.length s).
Proof.
  revert s. induction n as [|n IH]; intros [|c s]; simpl; auto.
Qed.

Lemma take_take (k n : nat) (s : string) :
  (k <= n)%nat -> take k (take n s) = take k s.
Proof.
  revert n s. induction k as [|k IH]; intros [|n] [|c s] H; simpl; auto; try lia.
  f_equal. apply IH. lia.
Qed.

Lemma take_prefix (n : nat) (s : string) : String.prefix (take n s) s = true.
Proof.
  revert s. induction n as [|n IH]; intros [|c s]; simpl; auto.
  destruct (Ascii.ascii_dec c c); [apply IH | congruence].
Qed.

Lemma prefix_refl (s : string) : String.prefix s s = true.
Proof.
  induction s as [|c s IH]; simpl; auto.
  destruct (Ascii.ascii_dec c c); [apply IH | congruence].
Qed.

(** Below the end of the string the loop never indexes out of range, and
    it only moves left. *)
Lemma trim_loop_in_range (str : string) (n : nat) :
  (n < String.length str)%nat ->
  exists k, trim_loop str n = Ret k /\ (k <= n)%nat.
Proof.
  induction n as [|n IH]; intros Hn; simpl.
  - exists O. auto.
  - unfold index. destruct (String.get (S n) str) as [b|] eqn:Hget.
    + destruct (utf8.RuneStart b).
      * exists (S n). auto.
      * destruct IH as (k & Hk & Hle); [lia|]. exists k. split; [exact Hk | lia].
    + apply get_None in Hget. lia.
Qed.

(** At the end of a non-empty string its first step indexes [str[len(str)]]. *)
Lemma trim_loop_at_end (str : string) :
  (0 < String.length str)%nat ->
  trim_loop str (String.length str) = Panic "index out of range".
Proof.
  intros H. destruct (String.length str) as [|n] eqn:Hlen; [lia|].
  simpl. unfold index.
  assert (Hget : String.get (S n) str = None) by (apply get_None; lia).
  rewrite Hget. reflexivity.
Qed.

Lemma take_all (s : string) : take (String.length s) s = s.
Proof. induction s as [|c s IH]; simpl; congruence. Qed.

(** For a non-negative limit, [trimLeftBytes] panics exactly when the limit
    is the length of the string, is not zero, and the string is not valid
    UTF-8. *)
Lemma trimLeftBytes_panics_iff (str : string) (maxBytes : Z) :
  0 <= maxBytes ->
  (exists r, trimLeftBytes str maxBytes = Panic r)
  <-> (len str = maxBytes /\ utf8.ValidString str = false).
Proof.
  intros Hmax. unfold trimLeftBytes, slice_to, len.
  destruct (Z.ltb_spec (Z.of_nat (String.length str)) maxBytes) as [Hlt|Hge].
  - split; [intros [r Hr]; discriminate | intros [He _]; lia].
  - destruct (Z.ltb_spec maxBytes 0) as [?|_]; [lia|]. simpl.
    destruct (utf8.ValidString (take (Z.to_nat maxBytes) str)) eqn:Hvalid.
    + split; [intros [r Hr]; discriminate|].
      intros [He Hinv]. rewrite <- He, Nat2Z.id, take_all in Hvalid. congruence.
    + destruct (Z.eq_dec (Z.of_nat (String.length str)) maxBytes) as [He|Hne].
      * rewrite <- He, Nat2Z.id in *. rewrite take_all in Hvalid.
        rewrite trim_loop_at_end.
        -- split; eauto.
        -- destruct str; [discriminate Hvalid | simpl; lia].
      * destruct (trim_loop_in_range str (Z.to_nat maxBytes)) as (k & Hk & Hle); [lia|].
        rewrite Hk.
        destruct (Z.ltb_spec (Z.of_nat k) 0) as [?|_]; [lia|].
        rewrite length_take.
        destruct (Z.ltb_spec (Z.of_nat (Nat.min (Z.to_nat maxBytes) (String.length str)))
                    (Z.of_nat k)) as [?|_]; [lia|]. simpl.
        split; [intros [r Hr]; discriminate | intros [? _]; lia].
Qed.

(** When it returns, the result is a prefix of the string and no longer
    than a non-negative limit. *)
Lemma trimLeftBytes_prefix (str res : string) (maxBytes : Z) :
  0 <= maxBytes ->
  trimLeftBytes str maxBytes = Ret res ->
  String.prefix res str = true /\ len res <= maxBytes.
Proof.
  intros Hmax. unfold trimLeftBytes, slice_to, len.
  destruct (Z.ltb_spec (Z.of_nat (String.length str)) maxBytes) as [Hlt|Hge].
  - intros [= <-]. split; [apply prefix_refl | lia].
  - destruct (Z.ltb_spec maxBytes 0) as [?|_]; [lia|]. simpl.
    destruct (utf8.ValidString (take (Z.to_nat maxBytes) str)).
    + intros [= <-]. split; [apply take_prefix | rewrite length_take; lia].
    + destruct (trim_loop str (Z.to_nat maxBytes)) as [k|r] eqn:Hk; [|discriminate].
      destruct ((Z.of_nat k <? 0) || _) eqn:Hb; [discriminate|].
      intros [= <-]. apply orb_false_iff in Hb as [_ Hb].
      apply Z.ltb_ge in Hb. rewrite length_take in Hb. rewrite Nat2Z.id.
      rewrite take_take by lia.
      split; [apply take_prefix | rewrite length_take; lia].
Qed.

End Truncation.

Example nihongo_bytes :
  map GoString.byte_val (list_ascii_of_string Fixture.nihongo)
  = [0xE6; 0x97; 0xA5; 0xE6; 0x9C; 0xAC; 0xE8; 0xAA; 0x9E].
Proof. reflexivity. Qed.

(** C5: truncating "日本語" to 0, 1 or 2 bytes gives the empty string, to 3,
    4 or 5 bytes gives "日", and to 6 bytes gives "日本": no partial code
    point is emitted. *)
Theorem trimLeftBytes_nihongo :
  map (trimLeftBytes Fixture.nihongo) [0; 1; 2; 3; 4; 5; 6]
  = [Ret ""; Ret ""; Ret ""; Ret "日"; Ret "日"; Ret "日"; Ret "日本"]
  /\ forallb (fun maxBytes =>
               match trimLeftBytes Fixture.nihongo maxBytes with
               | Ret res => utf8.ValidString res
               | Panic _ => false
               end) [0; 1; 2; 3; 4; 5; 6] = true.
Proof. split; vm_compute; reflexivity. Qed.

(** C10: [trimLeftBytes] does not return for every string and non-negative
    limit: on a one-byte string that is not valid UTF-8, with limit 1, it
    indexes [str[1]] and panics. *)
Theorem trimLeftBytes_panics_at_full_length :
  GoString.len Fixture.invalid_byte = 1
  /\ utf8.ValidString Fixture.invalid_byte = false
  /\ trimLeftBytes Fixture.invalid_byte 1 = Panic "index out of range".
Proof. vm_compute. auto. Qed.

(** ** The heap of attribute maps *)

Lemma alter_fresh {A} (f : A -> A) (h : list A) (x : A) :
  alter f (length h) (h ++ [x]) = h ++ [f x].
Proof. induction h as [|y h IH]; [reflexivity | exact (f_equal (cons y) IH)]. Qed.

Lemma lookup_fresh {A} (h : list A) (x : A) : (h ++ [x]) !! length h = Some x.
Proof. by apply list_lookup_middle. Qed.

(** Copying every entry of a map into the empty map gives the map back. *)
Lemma map_fold_insert_empty (m : gmap string string) :
  map_fold (fun k v acc => <[k:=v]> acc) ∅ m = m.
Proof.
  apply (map_fold_weak_ind (fun r m => r = m)); [reflexivity|].
  intros k v m' r _ ->. reflexivity.
Qed.

(** Allocating an empty map changes the content read through no pointer. *)
Lemma map_content_alloc (w : World) (p : option loc) :
  map_content (mkWorld (chans w) (maps w ++ [∅]) (calls w)) p = map_content w p.
Proof.
  destruct p as [l|]; [|reflexivity]. cbn [map_content maps].
  destruct (Nat.lt_ge_cases l (length (maps w))) as [Hlt|Hge].
  - by rewrite lookup_app_l.
  - rewrite (lookup_ge_None_2 (maps w) l Hge).
    destruct (decide (l = length (maps w))) as [->|Hne].
    + by rewrite lookup_fresh.
    + rewrite lookup_ge_None_2; [reflexivity|]. rewrite length_app. simpl. lia.
Qed.

(** ** Dead-lettering *)

Section DeadLetterRun.

Variables (env : Env) (w : World).
Variables (s : Service.t) (m : Message.t) (l dl : loc) (c : error).
Variables (project text : string).

Let msg := RichMessage.mk (Some m) (Some s) (Some l).
Let original := map_content w (Message.Attributes m).
Let attrs :=
  dead_letter_attributes original (Message.ID m)
    (Channel.TopicID (chans w l)) (Channel.SubscriptionID (chans w l)) text.
Let topic := "projects/" +:+ project +:+ "/topics/" +:+ Channel.TopicID (chans w dl).
Let published :=
  CPublish topic (Message.Data m) (length (maps w)) attrs.

Hypothesis Hdl : Service.DeadLetterChannel s = Some dl.
Hypothesis Hclient : Service.Client s = Some project.
Hypothesis Htext : trimLeftBytes (Error (Sprintf env) c) 1024 = Ret text.

Lemma DeadLetter_run :
  DeadLetter env msg (Some c) w
  = match Publish_Get env (calls w) topic (Message.Data m) attrs with
    | None =>
        (Ret None,
         mkWorld (chans w) (maps w ++ [attrs]) (calls w ++ [published; CAck (Message.ID m)]))
    | Some e =>
        (Ret (Some (Wrapf e "failed to sent message to dead letter topic %q" [topic])),
         mkWorld (chans w) (maps w ++ [attrs]) (calls w ++ [published; CNack (Message.ID m)]))
    end.
Proof.
  unfold DeadLetter, msg.
  cbn [bind deref ret RichMessage.Service RichMessage.Message RichMessage.Channel].
  rewrite Hdl.
  cbn [bind deref ret make_map range_copy map_store read_chan lift
       RichMessage.Service RichMessage.Message RichMessage.Channel maps chans calls].
  rewrite Htext.
  rewrite !alter_fresh, map_fold_insert_empty, map_content_alloc. fold original.
  cbn [bind map_load map_content maps chans calls]. rewrite lookup_fresh. cbn [default].
  subst attrs published. unfold dead_letter_attributes. cbn [id].
  destruct (_ !! "deadLetterCount") as [val|];
    [destruct (strconv.ParseInt val) as [i [e|]]|];
    cbn [bind ret map_store read_chan Topic deref Publish Ack Nack call map_content
         RichMessage.Message maps chans calls];
    rewrite ?alter_fresh; unfold Topic; rewrite Hclient;
    cbn [bind ret deref Publish map_content maps chans calls]; rewrite lookup_fresh; cbn [default id]; fold topic;
    destruct (Publish_Get env (calls w) topic (Message.Data m) _);
    cbn [bind ret deref call Ack Nack RichMessage.Message maps chans calls];
    rewrite <- ?app_assoc; reflexivity.
Qed.

End DeadLetterRun.

(** C2: without a dead-letter channel [DeadLetter] returns the
    "no deadletter channel configured" error and calls nothing on the
    transport; with one, a successful publish is followed by an [Ack] of the
    original message and no error, and a failed publish by a [Nack] of the
    original message and the publish error, wrapped. *)
Theorem DeadLetter_dispositions (env : Env) (w : World) (s : Service.t) :
  (forall msg cause,
      RichMessage.Service msg = Some s ->
      Service.DeadLetterChannel s = None ->
      DeadLetter env msg cause w
      = (Ret (Some (New "no deadletter channel configured")), w))
  /\ (forall m l dl c project text,
        Service.DeadLetterChannel s = Some dl ->
        Service.Client s = Some project ->
        trimLeftBytes (Error (Sprintf env) c) 1024 = Ret text ->
        let msg := RichMessage.mk (Some m) (Some s) (Some l) in
        let topic := "projects/" +:+ project +:+ "/topics/" +:+ Channel.TopicID (chans w dl) in
        let attrs :=
          dead_letter_attributes (map_content w (Message.Attributes m)) (Message.ID m)
            (Channel.TopicID (chans w l)) (Channel.SubscriptionID (chans w l)) text in
        let published := CPublish topic (Message.Data m) (length (maps w)) attrs in
        (Publish_Get env (calls w) topic (Message.Data m) attrs = None ->
         DeadLetter env msg (Some c) w
         = (Ret None,
            mkWorld (chans w) (maps w ++ [attrs])
              (calls w ++ [published; CAck (Message.ID m)])))
        /\ (forall e,
              Publish_Get env (calls w) topic (Message.Data m) attrs = Some e ->
              DeadLetter env msg (Some c) w
              = (Ret (Some (Wrapf e "failed to sent message to dead letter topic %q" [topic])),
                 mkWorld (chans w) (maps w ++ [attrs])
                   (calls w ++ [published; CNack (Message.ID m)])))).
Proof.
  split.
  - intros msg cause Hs Hdl. unfold DeadLetter. rewrite Hs. cbn [bind deref ret].
    rewrite Hdl. reflexivity.
  - intros m l dl c project text Hdl Hclient Htext msg topic attrs published.
    pose proof (DeadLetter_run env w s m l dl c project text Hdl Hclient Htext) as Hrun.
    cbv zeta in Hrun. fold msg topic attrs published in Hrun.
    split.
    + intros Hpub. rewrite Hrun, Hpub. reflexivity.
    + intros e Hpub. rewrite Hrun, Hpub. reflexivity.
Qed.

Lemma DeadLetter_dispositions_witness :
  DeadLetter Fixture.env0 (Fixture.rich false) (Some Fixture.errTest) (Fixture.world' false)
  = (Ret (Some (New "no deadletter channel configured")), Fixture.world' false)
  /\ fst (DeadLetter Fixture.env0 (Fixture.rich true) (Some Fixture.errTest) (Fixture.world' true))
     = Ret None
  /\ fst (DeadLetter (Fixture.env 0 (Some Fixture.errUnavailable) []) (Fixture.rich true)
            (Some Fixture.errTest) (Fixture.world' true))
     = Ret (Some (Wrapf Fixture.errUnavailable "failed to sent message to dead letter topic %q"
                    ["projects/metrix-io/topics/dead-letter-topic"])).
Proof.
  unfold Fixture.rich. split; [|split].
  - apply (proj1 (DeadLetter_dispositions Fixture.env0 (Fixture.world' false)
                    (Fixture.service false))); reflexivity.
  - rewrite (proj1 (proj2 (DeadLetter_dispositions Fixture.env0 (Fixture.world' true)
                             (Fixture.service true))
                      Fixture.message 0%nat 2%nat Fixture.errTest "metrix-io" "test error"
                      eq_refl eq_refl eq_refl) eq_refl).
    reflexivity.
  - rewrite (proj2 (proj2 (DeadLetter_dispositions (Fixture.env 0 (Some Fixture.errUnavailable) [])
                             (Fixture.world' true) (Fixture.service true))
                      Fixture.message 0%nat 2%nat Fixture.errTest "metrix-io" "test error"
                      eq_refl eq_refl eq_refl) Fixture.errUnavailable eq_refl).
    reflexivity.
Defined.

(** The provenance attributes do not touch the count. *)
Lemma dead_letter_attributes_count (original : gmap string string)
    (id topicID subID text : string) :
  dead_letter_attributes original id topicID subID text !! "deadLetterCount"
  = Some match original !! "deadLetterCount" with
         | Some val =>
             match strconv.ParseInt val with
             | (i, None) => strconv.FormatInt (int64 (i + 1))
             | (_, Some _) => val
             end
         | None => "1"
         end.
Proof.
  unfold dead_letter_attributes.
  assert (Hsame :
    <["error":=text]>
      (<["originalSubscriptionID":=subID]>
         (<["originalTopicID":=topicID]> (<["originalMessageID":=id]> original)))
    !! "deadLetterCount" = original !! "deadLetterCount")
    by (by rewrite !lookup_insert_ne).
  rewrite Hsame.
  destruct (original !! "deadLetterCount") as [val|] eqn:Hcur.
  - destruct (strconv.ParseInt val) as [i [e|]].
    + by rewrite Hsame.
    + by rewrite lookup_insert_eq.
  - by rewrite lookup_insert_eq.
Qed.

(** C3, as the code has it: the message [DeadLetter] publishes carries, as
    deadLetterCount, "1" when the original has none; the original's value
    plus one, in 64-bit arithmetic and written in base 10, when
    [strconv.ParseInt] reads it as a base-10 [int64]; and the original's
    value itself when [strconv.ParseInt] rejects it.  So the count is "1" on
    a first dead-letter and "2" for a message that carries "1". *)
Theorem DeadLetter_count (env : Env) (w : World) (s : Service.t) (m : Message.t)
    (l dl : loc) (c : error) (project text : string) :
  Service.DeadLetterChannel s = Some dl ->
  Service.Client s = Some project ->
  trimLeftBytes (Error (Sprintf env) c) 1024 = Ret text ->
  let original := map_content w (Message.Attributes m) in
  exists topic content disposition,
    calls (snd (DeadLetter env (RichMessage.mk (Some m) (Some s) (Some l)) (Some c) w))
    = calls w ++ [CPublish topic (Message.Data m) (length (maps w)) content; disposition]
    /\ content !! "deadLetterCount"
       = Some match original !! "deadLetterCount" with
              | Some val =>
                  match strconv.ParseInt val with
                  | (i, None) => strconv.FormatInt (int64 (i + 1))
                  | (_, Some _) => val
                  end
              | None => "1"
              end
    /\ (original !! "deadLetterCount" = None -> content !! "deadLetterCount" = Some "1")
    /\ (original !! "deadLetterCount" = Some "1" -> content !! "deadLetterCount" = Some "2").
Proof.
  intros Hdl Hclient Htext original.
  pose proof (DeadLetter_run env w s m l dl c project text Hdl Hclient Htext) as Hrun.
  cbv zeta in Hrun. fold original in Hrun.
  set (attrs := dead_letter_attributes original (Message.ID m) (Channel.TopicID (chans w l))
                  (Channel.SubscriptionID (chans w l)) text) in *.
  set (topic := "projects/" +:+ project +:+ "/topics/" +:+ Channel.TopicID (chans w dl)) in *.
  pose proof (dead_letter_attributes_count original (Message.ID m) (Channel.TopicID (chans w l))
                (Channel.SubscriptionID (chans w l)) text) as Hcount.
  fold attrs in Hcount.
  exists topic, attrs.
  exists (match Publish_Get env (calls w) topic (Message.Data m) attrs with
          | Some _ => CNack (Message.ID m)
          | None => CAck (Message.ID m)
          end).
  split; [|split; [exact Hcount | split]].
  - rewrite Hrun. destruct (Publish_Get env (calls w) topic (Message.Data m) attrs); reflexivity.
  - intros Hnone. rewrite Hcount, Hnone. reflexivity.
  - intros Hone. rewrite Hcount, Hone. reflexivity.
Qed.

Lemma DeadLetter_count_witness :
  exists topic content disposition,
    calls (snd (DeadLetter Fixture.env0 (Fixture.rich true) (Some Fixture.errTest)
                  (Fixture.world_with {["deadLetterCount" := "1"]})))
    = [CPublish topic "payload" 1%nat content; disposition]
    /\ content !! "deadLetterCount" = Some "2".
Proof.
  destruct (DeadLetter_count Fixture.env0 (Fixture.world_with {["deadLetterCount" := "1"]})
              (Fixture.service true) Fixture.message 0%nat 2%nat Fixture.errTest
              "metrix-io" "test error" eq_refl eq_refl eq_refl)
    as (topic & content & disposition & Hcalls & _ & _ & Htwo).
  exists topic, content, disposition. split; [exact Hcalls | apply Htwo; reflexivity].
Defined.

(** C3 as stated fails: a count that [strconv.ParseInt] rejects is carried
    over as it is, not replaced by "1"; and the largest [int64] is followed
    by the smallest, not by itself plus one. *)
Lemma DeadLetter_count_not_reset :
  (exists topic disposition content,
      calls (snd (DeadLetter Fixture.env0 (Fixture.rich true) (Some Fixture.errTest)
                    (Fixture.world_with {["deadLetterCount" := "abc"]})))
      = [CPublish topic "payload" 1%nat content; disposition]
      /\ snd (strconv.ParseInt "abc") = Some strconv.ErrSyntax
      /\ content !! "deadLetterCount" = Some "abc"
      /\ content !! "deadLetterCount" <> Some "1")
  /\ (exists topic disposition content,
        calls (snd (DeadLetter Fixture.env0 (Fixture.rich true) (Some Fixture.errTest)
                      (Fixture.world_with {["deadLetterCount" := "9223372036854775807"]})))
        = [CPublish topic "payload" 1%nat content; disposition]
        /\ strconv.ParseInt "9223372036854775807" = (9223372036854775807, None)
        /\ content !! "deadLetterCount" = Some "-9223372036854775808"
        /\ content !! "deadLetterCount" <> Some "9223372036854775808").
Proof.
  split.
  - eexists _, _, _. split; [vm_compute; reflexivity|].
    split; [reflexivity|]. split; [reflexivity|]. discriminate.
  - eexists _, _, _. split; [vm_compute; reflexivity|].
    split; [reflexivity|]. split; [reflexivity|]. discriminate.
Qed.

(** Closes a goal about the world a run of [DeadLetter] ends in: the maps are
    the old ones, possibly followed by the clone, and the calls the old ones
    followed by at most a publish and a disposition. *)
Ltac frame_done :=
  cbn [snd maps calls chans];
  split;
  [ intros a content Ha; first [exact Ha | by apply lookup_app_l_Some]
  | first
      [ exists []; split; [by rewrite app_nil_r | constructor]
      | eexists; split;
        [ rewrite <- ?app_assoc; reflexivity
        | repeat (apply Forall_cons; split; [by cbn|]); by apply Forall_nil ] ] ].

Ltac go_run :=
  cbn [bind ret deref panic lift make_map range_copy map_store map_load read_chan
       Publish Ack Nack call map_content
       RichMessage.Service RichMessage.Message RichMessage.Channel maps chans calls];
  rewrite ?alter_fresh, ?lookup_fresh.

(** C9: [DeadLetter] leaves every attribute map that exists when it is
    called, the envelope's own among them, with the content it had, whatever
    the outcome of the call; what it publishes is a map at a fresh address,
    the clone it made. *)
Theorem DeadLetter_keeps_original (env : Env) (msg : RichMessage.t) (cause : option error)
    (w : World) :
  let w' := snd (DeadLetter env msg cause w) in
  (forall a content, maps w !! a = Some content -> maps w' !! a = Some content)
  /\ exists new,
       calls w' = calls w ++ new /\ Forall (publishes_only (length (maps w))) new.
Proof.
  unfold DeadLetter. destruct msg as [om os ol].
  destruct os as [s|]; go_run; [|frame_done].
  destruct (Service.DeadLetterChannel s) as [dl|]; go_run; [|frame_done].
  destruct om as [m|]; go_run; [|frame_done].
  destruct ol as [l|]; go_run; [|frame_done].
  destruct cause as [c|]; go_run; [|frame_done].
  destruct (trimLeftBytes (Error (Sprintf env) c) 1024) as [text|r]; go_run; [|frame_done].
  cbn [default id].
  destruct (_ !! "deadLetterCount") as [val|];
    [destruct (strconv.ParseInt val) as [i [e|]]|];
    go_run; unfold Topic;
    (destruct (Service.Client s) as [project|]; go_run; [|frame_done]);
    cbn [default id];
    destruct (Publish_Get env _ _ _ _); go_run; frame_done.
Qed.

Lemma DeadLetter_keeps_original_witness :
  maps (snd (DeadLetter Fixture.env0 (Fixture.rich true) (Some Fixture.errTest)
               (Fixture.world' true))) !! 0%nat
  = Some {["event" := "ev1"]}.
Proof.
  apply (proj1 (DeadLetter_keeps_original Fixture.env0 (Fixture.rich true)
                  (Some Fixture.errTest) (Fixture.world' true))).
  reflexivity.
Defined.

(** ** The retry policy *)

(** Within the range of a [Duration] the age of a message is the plain
    difference of the two instants. *)
Lemma Since_exact (now t : Z) :
  time.minDuration <= now - t <= time.maxDuration -> time.Since now t = now - t.
Proof.
  intros [Hlo Hhi]. unfold time.Since, time.Sub.
  destruct (Z.ltb_spec (now - t) time.minDuration); [lia|].
  destruct (Z.ltb_spec time.maxDuration (now - t)); [lia | reflexivity].
Qed.

(** C1: with [age] the time since the message was published, a message no
    older than its channel's [MaxRetryAge] is nacked, nothing is published
    and no error is returned; an older one is handed to [DeadLetter], whose
    result is returned, and which acknowledges the original once the publish
    to the dead-letter topic has succeeded. *)
Theorem RetryableError_policy (env : Env) (w : World) (msg : RichMessage.t)
    (cause : option error) (m : Message.t) (l : loc) :
  RichMessage.Message msg = Some m ->
  RichMessage.Channel msg = Some l ->
  let age := time.Since (Now env (calls w)) (Message.PublishTime m) in
  let MaxRetryAge := Channel.MaxRetryAge (chans w l) in
  (age <= MaxRetryAge ->
   RetryableError env msg cause w
   = (Ret None, mkWorld (chans w) (maps w) (calls w ++ [CNack (Message.ID m)])))
  /\ (MaxRetryAge < age ->
      RetryableError env msg cause w = DeadLetter env msg cause w
      /\ forall s dl c project text,
           RichMessage.Service msg = Some s ->
           cause = Some c ->
           Service.DeadLetterChannel s = Some dl ->
           Service.Client s = Some project ->
           trimLeftBytes (Error (Sprintf env) c) 1024 = Ret text ->
           let topic :=
             "projects/" +:+ project +:+ "/topics/" +:+ Channel.TopicID (chans w dl) in
           let attrs :=
             dead_letter_attributes (map_content w (Message.Attributes m)) (Message.ID m)
               (Channel.TopicID (chans w l)) (Channel.SubscriptionID (chans w l)) text in
           Publish_Get env (calls w) topic (Message.Data m) attrs = None ->
           RetryableError env msg cause w
           = (Ret None,
              mkWorld (chans w) (maps w ++ [attrs])
                (calls w ++ [CPublish topic (Message.Data m) (length (maps w)) attrs;
                             CAck (Message.ID m)]))).
Proof.
  intros Hm Hl age MaxRetryAge.
  assert (Hstep : RetryableError env msg cause w
                  = if MaxRetryAge <? age then DeadLetter env msg cause w
                    else (Ret None,
                          mkWorld (chans w) (maps w) (calls w ++ [CNack (Message.ID m)]))).
  { unfold RetryableError, Nack. rewrite Hm, Hl.
    cbn [bind deref ret ask_calls read_chan]. fold age MaxRetryAge.
    destruct (MaxRetryAge <? age); reflexivity. }
  split.
  - intros Hle. rewrite Hstep. destruct (Z.ltb_spec MaxRetryAge age); [lia | reflexivity].
  - intros Hlt.
    assert (Hdead : RetryableError env msg cause w = DeadLetter env msg cause w).
    { rewrite Hstep. destruct (Z.ltb_spec MaxRetryAge age); [reflexivity | lia]. }
    split; [exact Hdead|].
    intros s dl c project text Hs -> Hdl Hclient Htext topic attrs Hpub.
    rewrite Hdead.
    destruct msg as [om os ol]. cbn in Hm, Hl, Hs. subst om os ol.
    pose proof (DeadLetter_run env w s m l dl c project text Hdl Hclient Htext) as Hrun.
    cbv zeta in Hrun. fold topic attrs in Hrun. rewrite Hrun, Hpub. reflexivity.
Qed.

(** The scenario of the tests: a channel with a [MaxRetryAge] of 120 seconds;
    119 seconds after publishing the message is nacked, 121 seconds after it
    is dead-lettered and acknowledged. *)
Lemma RetryableError_policy_witness :
  RetryableError (Fixture.env (119 * time.Second) None []) (Fixture.rich true)
    (Some Fixture.errTest) (Fixture.world' true)
  = (Ret None, mkWorld (chans (Fixture.world' true)) (maps (Fixture.world' true)) [CNack "m1"])
  /\ RetryableError (Fixture.env (121 * time.Second) None []) (Fixture.rich true)
       (Some Fixture.errTest) (Fixture.world' true)
     = DeadLetter (Fixture.env (121 * time.Second) None []) (Fixture.rich true)
         (Some Fixture.errTest) (Fixture.world' true)
  /\ calls (snd (RetryableError (Fixture.env (121 * time.Second) None []) (Fixture.rich true)
                   (Some Fixture.errTest) (Fixture.world' true)))
     = [CPublish "projects/metrix-io/topics/dead-letter-topic" "payload" 1%nat
          (dead_letter_attributes {["event" := "ev1"]} "m1" "test-topic" "test-subscription"
             "test error");
        CAck "m1"].
Proof.
  split; [|split].
  - apply (proj1 (RetryableError_policy (Fixture.env (119 * time.Second) None [])
                    (Fixture.world' true) (Fixture.rich true) (Some Fixture.errTest)
                    Fixture.message 0%nat eq_refl eq_refl)).
    vm_compute. discriminate.
  - apply (proj2 (RetryableError_policy (Fixture.env (121 * time.Second) None [])
                    (Fixture.world' true) (Fixture.rich true) (Some Fixture.errTest)
                    Fixture.message 0%nat eq_refl eq_refl)).
    vm_compute. reflexivity.
  - rewrite (proj2 (proj2 (RetryableError_policy (Fixture.env (121 * time.Second) None [])
                             (Fixture.world' true) (Fixture.rich true) (Some Fixture.errTest)
                             Fixture.message 0%nat eq_refl eq_refl) eq_refl)
               (Fixture.service true) 2%nat Fixture.errTest "metrix-io" "test error"
               eq_refl eq_refl eq_refl eq_refl eq_refl eq_refl).
    reflexivity.
Defined.

(** ** The channel registry *)

(** [WithChannel] fills a zero [MaxRetryAge] with two minutes and registers
    the channel under its ID. *)
Lemma WithChannel_default (l : loc) (cl : Service.t) (w : World) :
  exists cl' w',
    run_option (WithChannel (Some l)) cl w = (Ret cl', w')
    /\ Channel cl' (Channel.ID (chans w l)) = Some l
    /\ Channel.MaxRetryAge (chans w' l)
       = (if Channel.MaxRetryAge (chans w l) =? 0 then time.Minute * 2
          else Channel.MaxRetryAge (chans w l)).
Proof.
  unfold run_option, addChannel, Channel. cbn [bind deref ret read_chan].
  destruct (Channel.MaxRetryAge (chans w l) =? 0) eqn:Hzero;
    cbn [bind ret write_chan read_chan chans]; eexists _, _;
    (split; [reflexivity|]);
    cbn [chans Service.with_Channels Service.Channels];
    rewrite ?Nat.eqb_refl; cbn [Channel.with_MaxRetryAge Channel.ID Channel.MaxRetryAge];
    rewrite lookup_insert_eq; auto.
Qed.

(** [WithDeadLetter] registers the channel with the [MaxRetryAge] it came
    with. *)
Lemma WithDeadLetter_MaxRetryAge (l : loc) (cl : Service.t) (w : World) :
  exists cl' w',
    run_option (WithDeadLetter (Some l)) cl w = (Ret cl', w')
    /\ Service.DeadLetterChannel cl' = Some l
    /\ Channel.MaxRetryAge (chans w' l) = Channel.MaxRetryAge (chans w l).
Proof.
  unfold run_option, addChannel. cbn [bind deref ret read_chan].
  destruct (String.eqb (Channel.ID (chans w l)) "");
    cbn [bind ret write_chan read_chan chans]; eexists _, _;
    (split; [reflexivity|]); cbn [chans Service.with_DeadLetterChannel Service.DeadLetterChannel];
    rewrite ?Nat.eqb_refl; auto.
Qed.

(** C4: the dead-letter channel of the tests is registered without a
    [MaxRetryAge]; once [Configure] has run it is the channel "dead-letter"
    and the dead-letter target, and its [MaxRetryAge] is still zero, while
    the channels registered with [WithChannel] have two minutes. *)
Theorem WithDeadLetter_keeps_zero_MaxRetryAge :
  exists s w',
    Configure Fixture.env0 (NewPubSubService "metrix-io" (Fixture.options true)) Fixture.world
    = (Ret s, w')
    /\ Channel s "dead-letter" = Some 2%nat
    /\ Service.DeadLetterChannel s = Some 2%nat
    /\ Channel.MaxRetryAge (chans Fixture.world 2%nat) = 0
    /\ Channel.MaxRetryAge (chans w' 2%nat) = 0
    /\ Channel.MaxRetryAge (chans w' 2%nat) <> time.Minute * 2
    /\ Channel s "test-channel" = Some 0%nat
    /\ Channel.MaxRetryAge (chans w' 0%nat) = time.Minute * 2.
Proof.
  eexists _, _. split; [reflexivity|].
  repeat split; try reflexivity. vm_compute. discriminate.
Qed.

(** ** Error translation *)

(** C6, as the code has it: nil stays nil; a non-nil error becomes
    [ErrClosed] exactly when it carries no gRPC status or its status code is
    [Canceled]; every other error, one with a status of another code, is
    wrapped with the message, and its cause is that of the original. *)
Theorem translateError_cases (err : error) (wrapMsg : string) (args : list string) :
  translateError None wrapMsg args = None
  /\ (translateError (Some err) wrapMsg args = Some ErrClosed
      <-> snd (status.FromError err) = false \/ fst (status.FromError err) = codes.Canceled)
  /\ (translateError (Some err) wrapMsg args <> Some ErrClosed ->
      translateError (Some err) wrapMsg args = Some (Wrapf err wrapMsg args)
      /\ Cause (Wrapf err wrapMsg args) = Cause err).
Proof.
  split; [reflexivity|]. unfold translateError.
  destruct (status.FromError err) as [code ok]. cbn [fst snd].
  destruct ok; cbn [negb orb].
  - destruct (Z.eqb_spec code codes.Canceled) as [He|Hne].
    + split; [|congruence]. split; auto.
    + split; [|auto]. split; [discriminate|]. intros [?|?]; congruence.
  - split; [|congruence]. split; auto.
Qed.

Lemma translateError_cases_witness :
  translateError (Some Fixture.errUnavailable) "could not publish" []
  = Some (Wrapf Fixture.errUnavailable "could not publish" [])
  /\ Cause (Wrapf Fixture.errUnavailable "could not publish" []) = Fixture.errUnavailable.
Proof.
  apply (proj2 (proj2 (translateError_cases Fixture.errUnavailable "could not publish" []))).
  discriminate.
Defined.

(** C6 as stated fails: an error that is no cancellation of the transport,
    one without a gRPC status, becomes [ErrClosed] and is not wrapped. *)
Lemma translateError_closed_without_cancellation :
  ~ (forall err wrapMsg args,
        (translateError (Some err) wrapMsg args = Some ErrClosed
         <-> is_cancellation err = true)
        /\ (is_cancellation err = false ->
            translateError (Some err) wrapMsg args = Some (Wrapf err wrapMsg args))).
Proof.
  intros H. destruct (H Fixture.errTest "receiving message failed" []) as [_ Hwrap].
  specialize (Hwrap eq_refl). discriminate Hwrap.
Qed.

(** ** Channel lookup *)

(** C7, as the code has it: for an ID that is not registered, [Receive],
    [ReceiveNr], [PublishEvent] and [DeleteChannel] return the not-found
    error and call nothing on the transport, while the lookup [Channel]
    itself returns the nil channel, with no error; and [Receive] on a
    registered channel without a subscription returns the no-subscription
    error before any receive loop is opened. *)
Theorem unknown_channel (env : Env) (s : Service.t) (w : World) (channel : string) :
  (Service.Channels s !! channel = None ->
   Channel s channel = None
   /\ (forall f, Receive env s channel f w
                 = (Ret (Some (Errorf "channel %q not found" [channel])), w))
   /\ (forall n, ReceiveNr env s channel n w
                 = (Ret ([], Some (Errorf "channel %q not found" [channel])), w))
   /\ (forall eventName marshalled,
          PublishEvent env s channel eventName marshalled w
          = (Ret (Some (Errorf "channel %q not found" [channel])), w))
   /\ DeleteChannel env s channel w
      = (Ret (Some (Errorf "channel %q not found" [channel])), w))
  /\ (forall l f,
        Service.Channels s !! channel = Some (Some l) ->
        Channel.SubscriptionID (chans w l) = "" ->
        Receive env s channel f w
        = (Ret (Some (Errorf "channel %q does not have a subscription" [channel])), w)).
Proof.
  split.
  - intros Hnone.
    assert (Hnil : Channel s channel = None) by (unfold Channel; by rewrite Hnone).
    unfold Receive, ReceiveNr, PublishEvent, DeleteChannel. rewrite Hnil.
    repeat split; reflexivity.
  - intros l f Hsome Hsub.
    assert (Hch : Channel s channel = Some l) by (unfold Channel; by rewrite Hsome).
    unfold Receive. rewrite Hch. cbn [bind read_chan]. rewrite Hsub. reflexivity.
Qed.

Lemma unknown_channel_witness :
  DeleteChannel Fixture.env0 (Fixture.service false) "unknown" (Fixture.world' false)
  = (Ret (Some (Errorf "channel %q not found" ["unknown"])), Fixture.world' false)
  /\ Receive Fixture.env0 (Fixture.service false) "without-subscription" (fun _ => ret tt)
       (Fixture.world' false)
     = (Ret (Some (Errorf "channel %q does not have a subscription" ["without-subscription"])),
        Fixture.world' false).
Proof.
  split.
  - apply (proj1 (unknown_channel Fixture.env0 (Fixture.service false) (Fixture.world' false)
                    "unknown")).
    reflexivity.
  - apply (proj2 (unknown_channel Fixture.env0 (Fixture.service false) (Fixture.world' false)
                    "without-subscription") 1%nat); reflexivity.
Defined.

(** C7 as stated fails for the registry lookup itself: on an ID that is not
    registered it returns the nil channel. *)
Lemma Channel_lookup_returns_nil :
  ~ (forall s channel, Service.Channels s !! channel = None -> Channel s channel <> None).
Proof.
  intros H. apply (H (Fixture.service false) "unknown"); reflexivity.
Qed.

(** ** Bounded receiving *)

Section ReceiveNrLoop.

Variables (s : Service.t) (l : loc) (nrOfMessages : Z) (final : option error).

Let wrap (m : Message.t) : RichMessage.t := RichMessage.mk (Some m) (Some s) (Some l).
Let ack (m : Message.t) : Call := CAck (Message.ID m).

(** Once its context is cancelled the loop delivers nothing more. *)
Lemma receive_loop_cancelled {S : Type} (f : Message.t -> S -> M S) (cancelled : S -> bool)
    (deliveries : list Message.t) (st : S) (w : World) :
  cancelled st = true ->
  receive_loop f cancelled deliveries final st w = (Ret (st, None), w).
Proof. intros H. destruct deliveries; simpl; rewrite H; reflexivity. Qed.

(** With [k + 1] messages still to collect and as many to come, the loop
    acknowledges and collects the next [k + 1] messages and stops. *)
Lemma ReceiveNr_loop (k : nat) :
  forall (deliveries : list Message.t) (msgs : list RichMessage.t) (w : World),
    nrOfMessages = Z.of_nat (length msgs + S k) ->
    (S k <= length deliveries)%nat ->
    receive_loop (ReceiveNr_callback s l nrOfMessages) snd deliveries final (msgs, false) w
    = (Ret ((msgs ++ map wrap (take (S k) deliveries), true), None),
       mkWorld (chans w) (maps w) (calls w ++ map ack (take (S k) deliveries))).
Proof.
  induction k as [|k IH]; intros [|d rest] msgs w Hnr Hlen; simpl in Hlen; try lia.
  - cbn [receive_loop snd]. unfold ReceiveNr_callback at 1. cbn [bind call fst snd].
    destruct (nrOfMessages <=? _) eqn:Hb;
      [|apply Z.leb_gt in Hb; rewrite length_app in Hb; simpl in Hb; lia].
    cbv [bind call ret]. rewrite receive_loop_cancelled by reflexivity.
    cbn [take map]. rewrite ?take_0. reflexivity.
  - cbn [receive_loop snd]. unfold ReceiveNr_callback at 1. cbn [bind call fst snd].
    destruct (nrOfMessages <=? _) eqn:Hb;
      [apply Z.leb_le in Hb; rewrite length_app in Hb; simpl in Hb; lia|].
    cbv [bind call ret]. rewrite IH.
    + cbn [chans maps calls map take]. fold wrap. rewrite <- !app_assoc. reflexivity.
    + rewrite length_app. simpl. lia.
    + lia.
Qed.

End ReceiveNrLoop.

(** C8, as the code has it: on a registered channel, for a count of at least
    one, when the subscription delivers at least that many messages, one at
    a time, while the loop is open, [ReceiveNr] opens one receive loop,
    acknowledges each of the first [count] messages as it is received,
    cancels the loop and returns exactly these messages and no error. *)
Theorem ReceiveNr_collects (env : Env) (s : Service.t) (w : World) (channel : string)
    (l : loc) (project : string) (deliveries : list Message.t) (final : option error)
    (count : Z) :
  Service.Channels s !! channel = Some (Some l) ->
  Service.Client s = Some project ->
  let sub := "projects/" +:+ project +:+ "/subscriptions/"
             +:+ Channel.SubscriptionID (chans w l) in
  Subscription_Receive env (calls w) sub = (deliveries, final) ->
  1 <= count <= Z.of_nat (length deliveries) ->
  let received := take (Z.to_nat count) deliveries in
  ReceiveNr env s channel count w
  = (Ret (map (fun m => RichMessage.mk (Some m) (Some s) (Some l)) received, None),
     mkWorld (chans w) (maps w)
       (calls w ++ CReceive sub :: map (fun m => CAck (Message.ID m)) received)).
Proof.
  intros Hreg Hclient sub Hscript Hcount received.
  assert (Hch : Channel s channel = Some l) by (unfold Channel; by rewrite Hreg).
  unfold ReceiveNr, Subscription, sub_Receive. rewrite Hch, Hclient.
  cbv [bind read_chan deref ret ask_calls call]. fold sub. rewrite Hscript.
  destruct (Z.to_nat count) as [|k] eqn:Hk; [lia|].
  rewrite (ReceiveNr_loop s l count final k); [|simpl; lia|lia].
  cbn [snd fst app chans maps calls]. subst received. rewrite ?Hk.
  rewrite <- app_assoc. reflexivity.
Qed.

(** Two events are published and two messages received, as in the tests. *)
Lemma ReceiveNr_collects_witness :
  ReceiveNr (Fixture.env 0 None [Fixture.message; Fixture.message2]) (Fixture.service false)
    "test-channel" 2 (Fixture.world' false)
  = (Ret ([RichMessage.mk (Some Fixture.message) (Some (Fixture.service false)) (Some 0%nat);
           RichMessage.mk (Some Fixture.message2) (Some (Fixture.service false)) (Some 0%nat)],
          None),
     mkWorld (chans (Fixture.world' false)) (maps (Fixture.world' false))
       [CReceive "projects/metrix-io/subscriptions/test-subscription"; CAck "m1"; CAck "m2"]).
Proof.
  apply (ReceiveNr_collects (Fixture.env 0 None [Fixture.message; Fixture.message2])
           (Fixture.service false) (Fixture.world' false) "test-channel" 0%nat "metrix-io"
           [Fixture.message; Fixture.message2] None 2 eq_refl eq_refl eq_refl).
  simpl. lia.
Defined.

(** C8 as stated fails: when the caller's context ends the loop before any
    message arrives, [ReceiveNr] asked for one message returns none, with no
    error; and asked for no message it still waits for one and returns it. *)
Lemma ReceiveNr_not_always_count :
  ~ (forall env s w channel l count,
        Service.Channels s !! channel = Some (Some l) ->
        exists msgs w',
          ReceiveNr env s channel count w = (Ret (msgs, None), w')
          /\ Z.of_nat (length msgs) = count)
  /\ (exists msgs w',
        ReceiveNr (Fixture.env 0 None [Fixture.message; Fixture.message2])
          (Fixture.service false) "test-channel" 0 (Fixture.world' false)
        = (Ret (msgs, None), w')
        /\ length msgs = 1%nat).
Proof.
  split.
  - intros H.
    destruct (H Fixture.env0 (Fixture.service false) (Fixture.world' false) "test-channel"
                0%nat 1 eq_refl) as (msgs & w' & Hrun & Hlen).
    vm_compute in Hrun. injection Hrun as <- _. discriminate Hlen.
  - eexists _, _. split; [vm_compute; reflexivity | reflexivity].
Qed.

(** * Further properties *)

(** ** Truncation of valid UTF-8 *)

Section ValidTruncation.

Import GoString.

(** A continuation byte does not start a rune. *)
Lemma continuation_not_RuneStart (c : ascii) :
  utf8.outside (byte_val c) utf8.locb utf8.hicb = false -> utf8.RuneStart c = false.
Proof.
  destruct c as [[] [] [] [] [] [] [] []]; vm_compute; intros H;
    first [reflexivity | discriminate H].
Qed.

(** The range accepted for the second byte of a rune lies within that of
    continuation bytes. *)
Lemma accept_within_continuation (c0 : ascii) :
  (byte_val c0 <? 0x80) = false ->
  (utf8.first (byte_val c0) =? utf8.xx) = false ->
  utf8.locb <= fst (utf8.acceptRanges (Z.shiftr (utf8.first (byte_val c0)) 4))
  /\ snd (utf8.acceptRanges (Z.shiftr (utf8.first (byte_val c0)) 4)) <= utf8.hicb.
Proof.
  destruct c0 as [[] [] [] [] [] [] [] []]; vm_compute; intros H1 H2;
    first [discriminate H1 | discriminate H2 | split; discriminate].
Qed.

Lemma second_byte_not_RuneStart (c0 c1 : ascii) :
  (byte_val c0 <? 0x80) = false ->
  (utf8.first (byte_val c0) =? utf8.xx) = false ->
  utf8.outside (byte_val c1)
    (fst (utf8.acceptRanges (Z.shiftr (utf8.first (byte_val c0)) 4)))
    (snd (utf8.acceptRanges (Z.shiftr (utf8.first (byte_val c0)) 4))) = false ->
  utf8.RuneStart c1 = false.
Proof.
  intros H0 Hx Hin. apply continuation_not_RuneStart.
  destruct (accept_within_continuation c0 H0 Hx) as [Hlo Hhi].
  unfold utf8.outside in *. apply orb_false_iff in Hin as [H1 H2].
  apply Z.ltb_ge in H1, H2. apply orb_false_iff. split; apply Z.ltb_ge; lia.
Qed.

Lemma rune_boundary_tail (c : ascii) (s : string) (k : nat) :
  rune_boundary (String c s) (S k) = rune_boundary s k.
Proof. reflexivity. Qed.

Lemma rune_boundary_head (c : ascii) (s : string) :
  rune_boundary (String c s) 0 = utf8.RuneStart c.
Proof. reflexivity. Qed.

(** Cutting a valid string at a rune boundary leaves a valid string. *)
Lemma ValidString_take (n : nat) :
  forall (s : string) (k : nat),
    (String.length s <= n)%nat ->
    utf8.ValidString s = true ->
    rune_boundary s k = true ->
    utf8.ValidString (take k s) = true.
Proof.
  induction n as [|n IH]; intros s k Hlen Hvalid Hbound.
  - destruct s; [|simpl in Hlen; lia]. destruct k; reflexivity.
  - destruct s as [|c0 r0]; [destruct k; reflexivity|].
    destruct k as [|k]; [reflexivity|].
    simpl in Hlen. rewrite rune_boundary_tail in Hbound.
    cbn [take]. cbn [utf8.ValidString] in Hvalid |- *.
    destruct (byte_val c0 <? 128) eqn:H0.
    { apply IH; [lia | exact Hvalid | exact Hbound]. }
    destruct (utf8.first (byte_val c0) =? utf8.xx) eqn:Hx; [discriminate|].
    destruct r0 as [|c1 r1]; [discriminate|].
    simpl in Hlen.
    pose proof (second_byte_not_RuneStart c0 c1 H0 Hx) as Hc1.
    destruct (Z.land _ 7 =? 2) eqn:H2.
    { destruct (utf8.outside (byte_val c1) _ _) eqn:Ho1; [discriminate|].
      destruct k as [|k];
        [rewrite rune_boundary_head, (Hc1 eq_refl) in Hbound; discriminate|].
      rewrite rune_boundary_tail in Hbound. cbn [take]. rewrite ?Ho1.
      apply IH; [lia | exact Hvalid | exact Hbound]. }
    destruct r1 as [|c2 r2]; [discriminate|]. simpl in Hlen.
    destruct (Z.land _ 7 =? 3) eqn:H3.
    { destruct (utf8.outside (byte_val c1) _ _) eqn:Ho1; [discriminate|].
      destruct (utf8.outside (byte_val c2) _ _) eqn:Ho2; [discriminate|].
      destruct k as [|[|k]].
      - rewrite rune_boundary_head, (Hc1 eq_refl) in Hbound. discriminate.
      - rewrite rune_boundary_tail, rune_boundary_head,
          (continuation_not_RuneStart c2 Ho2) in Hbound. discriminate.
      - rewrite !rune_boundary_tail in Hbound. cbn [take]. rewrite ?H3, ?Ho1, ?Ho2.
        apply IH; [lia | exact Hvalid | exact Hbound]. }
    destruct r2 as [|c3 r3]; [discriminate|]. simpl in Hlen.
    destruct (utf8.outside (byte_val c1) _ _) eqn:Ho1; [discriminate|].
    destruct (utf8.outside (byte_val c2) _ _) eqn:Ho2; [discriminate|].
    destruct (utf8.outside (byte_val c3) _ _) eqn:Ho3; [discriminate|].
    destruct k as [|[|[|k]]].
    + rewrite rune_boundary_head, (Hc1 eq_refl) in Hbound. discriminate.
    + rewrite rune_boundary_tail, rune_boundary_head,
        (continuation_not_RuneStart c2 Ho2) in Hbound. discriminate.
    + rewrite !rune_boundary_tail, rune_boundary_head,
        (continuation_not_RuneStart c3 Ho3) in Hbound. discriminate.
    + rewrite !rune_boundary_tail in Hbound. cbn [take]. rewrite ?H3, ?Ho1, ?Ho2, ?Ho3.
      apply IH; [lia | exact Hvalid | exact Hbound].
Qed.

(** When it returns, the loop is at position 0 or at a byte that starts a
    rune. *)
Lemma trim_loop_boundary (str : string) (n k : nat) :
  trim_loop str n = Ret k -> k = O \/ rune_boundary str k = true.
Proof.
  induction n as [|n IH]; simpl.
  - intros [= <-]. auto.
  - unfold index, rune_boundary.
    destruct (String.get (S n) str) as [b|] eqn:Hget; [|discriminate].
    destruct (utf8.RuneStart b) eqn:Hb; [|exact IH].
    intros [= <-]. right. rewrite Hget. exact Hb.
Qed.

(** X1: On valid UTF-8 and a non-negative limit [trimLeftBytes] returns, its
    result is valid UTF-8, a prefix of the string and within the limit; and
    truncating the result again changes nothing. *)
Theorem trimLeftBytes_valid (str : string) (maxBytes : Z) :
  utf8.ValidString str = true ->
  0 <= maxBytes ->
  exists res,
    trimLeftBytes str maxBytes = Ret res
    /\ utf8.ValidString res = true
    /\ String.prefix res str = true
    /\ len res <= maxBytes
    /\ trimLeftBytes res maxBytes = Ret res.
Proof.
  intros Hvalid Hmax.
  assert (Hret : exists res, trimLeftBytes str maxBytes = Ret res).
  { destruct (trimLeftBytes str maxBytes) as [res|r] eqn:Hrun; [eauto|].
    assert (Hp : exists r, trimLeftBytes str maxBytes = Panic r) by eauto.
    apply trimLeftBytes_panics_iff in Hp; [|exact Hmax]. destruct Hp. congruence. }
  destruct Hret as [res Hres]. exists res.
  destruct (trimLeftBytes_prefix str res maxBytes Hmax Hres) as [Hprefix Hle].
  assert (Hresvalid : utf8.ValidString res = true).
  { revert Hres. unfold trimLeftBytes, slice_to, len.
    destruct (Z.of_nat (String.length str) <? maxBytes); [intros [= <-]; exact Hvalid|].
    destruct ((maxBytes <? 0) || _); [discriminate|].
    destruct (utf8.ValidString (take (Z.to_nat maxBytes) str)) eqn:Hcut;
      [intros [= <-]; exact Hcut|].
    destruct (trim_loop str (Z.to_nat maxBytes)) as [k|r] eqn:Hk; [|discriminate].
    destruct ((Z.of_nat k <? 0) || _) eqn:Hb; [discriminate|].
    intros [= <-]. apply orb_false_iff in Hb as [_ Hb]. apply Z.ltb_ge in Hb.
    rewrite length_take in Hb. rewrite Nat2Z.id, take_take by lia.
    destruct (trim_loop_boundary str _ k Hk) as [->|Hbound]; [reflexivity|].
    apply (ValidString_take (String.length str)); auto. }
  repeat split; auto.
  unfold trimLeftBytes, slice_to. unfold len in *.
  destruct (Z.ltb_spec (Z.of_nat (String.length res)) maxBytes) as [?|Hge]; [reflexivity|].
  assert (Heq : maxBytes = Z.of_nat (String.length res)) by lia.
  destruct (Z.ltb_spec maxBytes 0); [lia|].
  destruct (Z.ltb_spec (Z.of_nat (String.length res)) maxBytes); [lia|]. cbn [orb].
  rewrite Heq, Nat2Z.id, take_all, Hresvalid. reflexivity.
Qed.

Lemma trimLeftBytes_valid_witness :
  exists res,
    trimLeftBytes Fixture.nihongo 4 = Ret res
    /\ utf8.ValidString res = true
    /\ String.prefix res Fixture.nihongo = true
    /\ len res <= 4
    /\ trimLeftBytes res 4 = Ret res.
Proof. apply (trimLeftBytes_valid Fixture.nihongo 4); [reflexivity | lia]. Defined.

End ValidTruncation.

(** ** The registry after configuration *)

(** Registering the channel at [l] under the ID it has keeps the registry
    closed, also when the ID of that channel has just changed. *)
Lemma register_closed (s : Service.t) (w w' : World) (l : loc) (id : string) :
  registry_closed s w ->
  (forall l0, l0 <> l -> Channel.ID (chans w' l0) = Channel.ID (chans w l0)) ->
  Channel.ID (chans w' l) = id ->
  registry_closed (Service.with_Channels (<[id := Some l]> (Service.Channels s)) s) w'.
Proof.
  intros Hclosed Hsame <- k p. unfold Channel. cbn [Service.with_Channels Service.Channels].
  rewrite lookup_insert_Some. intros [[<- <-]|[Hne Hold]].
  - exists l. split; [reflexivity|]. by rewrite lookup_insert_eq.
  - destruct (Hclosed k p Hold) as (l0 & -> & Hreg). exists l0. split; [reflexivity|].
    destruct (decide (Channel.ID (chans w' l) = Channel.ID (chans w' l0))) as [<-|Hne'].
    + by rewrite lookup_insert_eq.
    + rewrite lookup_insert_ne by exact Hne'.
      destruct (decide (l0 = l)) as [->|Hl]; [congruence|].
      rewrite (Hsame l0 Hl). exact Hreg.
Qed.

Lemma run_option_closed (o : Option) (s s' : Service.t) (w w' : World) :
  registry_closed s w ->
  run_option o s w = (Ret s', w') ->
  registry_closed s' w'
  /\ Service.Client s' = Service.Client s
  /\ Service.projectID s' = Service.projectID s.
Proof.
  intros Hclosed. destruct o as [[l|]|[l|]]; unfold run_option, addChannel;
    cbn [bind deref ret read_chan panic]; try discriminate.
  - destruct (Channel.MaxRetryAge (chans w l) =? 0);
      cbn [bind ret write_chan read_chan chans maps calls];
      intros [= <- <-]; (split; [|split; reflexivity]);
      (apply (register_closed s w _ l); [exact Hclosed | |]);
      cbn [chans]; try reflexivity;
      first [ intros l0 Hl0; apply Nat.eqb_neq in Hl0; by rewrite Hl0
            | by rewrite Nat.eqb_refl ].
  - destruct (String.eqb (Channel.ID (chans w l)) "");
      cbn [bind ret write_chan read_chan chans maps calls];
      intros [= <- <-]; (split; [|split; reflexivity]);
      (apply (register_closed s w _ l); [exact Hclosed | |]);
      cbn [chans]; try reflexivity;
      first [ intros l0 Hl0; apply Nat.eqb_neq in Hl0; by rewrite Hl0
            | by rewrite Nat.eqb_refl ].
Qed.

Lemma run_options_closed (os : list Option) :
  forall (s s' : Service.t) (w w' : World),
    registry_closed s w ->
    run_options os s w = (Ret s', w') ->
    registry_closed s' w'
    /\ Service.Client s' = Service.Client s
    /\ Service.projectID s' = Service.projectID s.
Proof.
  induction os as [|o os IH]; intros s s' w w' Hclosed; cbn [run_options].
  - intros [= <- <-]. auto.
  - unfold bind. destruct (run_option o s w) as [[s1|r] w1] eqn:Hrun; [|discriminate].
    intros Hrest.
    destruct (run_option_closed o s s1 w w1 Hclosed Hrun) as (Hc1 & Hcl1 & Hp1).
    destruct (IH s1 s' w1 w' Hc1 Hrest) as (Hc & Hcl & Hp).
    split; [exact Hc | split; congruence].
Qed.

(** X2: Whenever [Configure] returns, the client is connected to the service's
    project, every entry of the registry holds a channel, and a channel's own
    ID is always a key of the registry, whatever the options and the
    channels they share. *)
Theorem Configure_registry_closed (env : Env) (projectID : string) (options : list Option)
    (w w' : World) (s : Service.t) :
  Configure env (NewPubSubService projectID options) w = (Ret s, w') ->
  Service.Client s = Some projectID /\ registry_closed s w'.
Proof.
  unfold Configure, bind. cbn [NewPubSubService Service.options].
  destruct (run_options options _ w) as [[s1|r] w1] eqn:Hrun; [|discriminate].
  assert (Hempty : registry_closed (Service.mk None ∅ None projectID options) w).
  { intros k p. cbn [Service.Channels]. by rewrite lookup_empty. }
  destruct (run_options_closed options _ s1 w w1 Hempty Hrun) as (Hc & _ & Hp).
  cbn [Service.projectID] in Hp.
  destruct (NewClient env (Service.projectID s1)); [discriminate|].
  intros [= <- <-]. rewrite Hp. split; [reflexivity | exact Hc].
Qed.

Lemma Configure_registry_closed_witness :
  Service.Client (Fixture.service true) = Some "metrix-io"
  /\ registry_closed (Fixture.service true) (Fixture.world' true).
Proof.
  apply (Configure_registry_closed Fixture.env0 "metrix-io" (Fixture.options true)
           Fixture.world).
  reflexivity.
Defined.

(** ** Deleting channels *)

Lemma translateError_translated (err : error) (wrapMsg : string) (args : list string)
    (e : error) :
  translateError (Some err) wrapMsg args = Some e -> translated e.
Proof.
  unfold translateError, translated. destruct (status.FromError err) as [code ok].
  destruct (negb ok || (code =? codes.Canceled)); intros [= <-]; eauto.
Qed.

Ltac delete_run :=
  cbv [bind ret deref read_chan ask_calls call]; cbn [calls chans maps].

Ltac delete_done :=
  eexists _, _; split;
  [ rewrite <- ?app_assoc; first [reflexivity | symmetry; apply app_nil_r | by rewrite app_nil_r]
  | first [ discriminate
          | intros ? [= <-]; eauto using translateError_translated
          | intros ? Htr; eauto using translateError_translated ] ].

(** On a registered channel of a connected service [DeleteChannel] returns,
    with nil or an error of [translateError]; it only adds transport
    calls. *)
Lemma DeleteChannel_found (env : Env) (s : Service.t) (channel : string) (l : loc)
    (project : string) (w : World) :
  Channel s channel = Some l ->
  Service.Client s = Some project ->
  exists r new,
    DeleteChannel env s channel w = (Ret r, mkWorld (chans w) (maps w) (calls w ++ new))
    /\ (forall e, r = Some e -> translated e).
Proof.
  intros Hch Hclient. unfold DeleteChannel, Subscription, Topic. rewrite Hch, Hclient.
  delete_run.
  destruct (String.eqb (Channel.SubscriptionID (chans w l)) "").
  - destruct (Topic_Exists env _ _) as [[|] [e|]]; delete_run; try delete_done;
      destruct (Topic_Delete env _ _) as [e|]; delete_run; delete_done.
  - destruct (Subscription_Exists env _ _) as [[|] [e|]]; delete_run; try delete_done.
    + destruct (Subscription_Delete env _ _) as [e|]; delete_run; try delete_done.
      destruct (Topic_Exists env _ _) as [[|] [e|]]; delete_run; try delete_done;
        destruct (Topic_Delete env _ _) as [e|]; delete_run; delete_done.
    + destruct (Topic_Exists env _ _) as [[|] [e|]]; delete_run; try delete_done;
        destruct (Topic_Delete env _ _) as [e|]; delete_run; delete_done.
Qed.

(** With nothing to delete [DeleteChannel] only asks whether the resources
    exist. *)
Lemma DeleteChannel_absent_run (env : Env) (s : Service.t) (channel : string) (l : loc)
    (project : string) (w : World) :
  Channel s channel = Some l ->
  Service.Client s = Some project ->
  (forall cs x, Subscription_Exists env cs x = (false, None)) ->
  (forall cs x, Topic_Exists env cs x = (false, None)) ->
  exists new,
    DeleteChannel env s channel w = (Ret None, mkWorld (chans w) (maps w) (calls w ++ new))
    /\ Forall is_existence_check new.
Proof.
  intros Hch Hclient Hsub Htopic. unfold DeleteChannel, Subscription, Topic.
  rewrite Hch, Hclient. delete_run.
  destruct (String.eqb (Channel.SubscriptionID (chans w l)) "").
  - rewrite Htopic. delete_run. eexists. split; [reflexivity|].
    repeat constructor.
  - rewrite Hsub. delete_run. rewrite Htopic. delete_run.
    eexists. split; [rewrite <- app_assoc; reflexivity|]. repeat constructor.
Qed.

(** X3: When subscription and topic exist and the transport does not fail,
    [DeleteChannel] on a channel with a subscription checks and deletes the
    subscription first, then checks and deletes the topic, and returns
    nil. *)
Theorem DeleteChannel_subscription_first (env : Env) (s : Service.t) (channel : string)
    (l : loc) (project : string) (w : World) :
  Channel s channel = Some l ->
  Service.Client s = Some project ->
  Channel.SubscriptionID (chans w l) <> "" ->
  (forall cs x, Subscription_Exists env cs x = (true, None)) ->
  (forall cs x, Subscription_Delete env cs x = None) ->
  (forall cs x, Topic_Exists env cs x = (true, None)) ->
  (forall cs x, Topic_Delete env cs x = None) ->
  let sub := "projects/" +:+ project +:+ "/subscriptions/"
             +:+ Channel.SubscriptionID (chans w l) in
  let topic := "projects/" +:+ project +:+ "/topics/" +:+ Channel.TopicID (chans w l) in
  DeleteChannel env s channel w
  = (Ret None,
     mkWorld (chans w) (maps w)
       (calls w ++ [CSubscriptionExists sub; CSubscriptionDelete sub;
                    CTopicExists topic; CTopicDelete topic])).
Proof.
  intros Hch Hclient Hne Hse Hsd Hte Htd sub topic.
  unfold DeleteChannel, Subscription, Topic. rewrite Hch, Hclient. delete_run.
  apply String.eqb_neq in Hne. rewrite Hne. fold sub topic.
  rewrite Hse. delete_run. rewrite Hsd. delete_run.
  rewrite Hte. delete_run. rewrite Htd. delete_run.
  rewrite <- !app_assoc. reflexivity.
Qed.

Lemma DeleteChannel_subscription_first_witness :
  DeleteChannel Fixture.env0 (Fixture.service false) "test-channel" (Fixture.world' false)
  = (Ret None,
     mkWorld (chans (Fixture.world' false)) (maps (Fixture.world' false))
       [CSubscriptionExists "projects/metrix-io/subscriptions/test-subscription";
        CSubscriptionDelete "projects/metrix-io/subscriptions/test-subscription";
        CTopicExists "projects/metrix-io/topics/test-topic";
        CTopicDelete "projects/metrix-io/topics/test-topic"]).
Proof.
  apply (DeleteChannel_subscription_first Fixture.env0 (Fixture.service false) "test-channel"
           0%nat "metrix-io" (Fixture.world' false)); try reflexivity.
  discriminate.
Defined.

(** X4: When the subscription cannot be looked up or deleted, [DeleteChannel]
    returns that error, translated, and leaves the topic alone. *)
Theorem DeleteChannel_stops_at_subscription (env : Env) (s : Service.t) (channel : string)
    (l : loc) (project : string) (w : World) (e : error) :
  Channel s channel = Some l ->
  Service.Client s = Some project ->
  Channel.SubscriptionID (chans w l) <> "" ->
  let subID := Channel.SubscriptionID (chans w l) in
  let sub := "projects/" +:+ project +:+ "/subscriptions/" +:+ subID in
  (forall exists_, Subscription_Exists env (calls w) sub = (exists_, Some e) ->
     DeleteChannel env s channel w
     = (Ret (translateError (Some e) "failed to retrieve subscription %q" [subID]),
        mkWorld (chans w) (maps w) (calls w ++ [CSubscriptionExists sub])))
  /\ (Subscription_Exists env (calls w) sub = (true, None) ->
      Subscription_Delete env (calls w ++ [CSubscriptionExists sub]) sub = Some e ->
      DeleteChannel env s channel w
      = (Ret (translateError (Some e) "failed to delete subscription %q" [subID]),
         mkWorld (chans w) (maps w)
           (calls w ++ [CSubscriptionExists sub; CSubscriptionDelete sub]))).
Proof.
  intros Hch Hclient Hne subID sub. apply String.eqb_neq in Hne.
  split.
  - intros exists_ Hse. unfold DeleteChannel, Subscription, Topic.
    rewrite Hch, Hclient. delete_run. rewrite Hne. fold subID sub. rewrite Hse.
    destruct exists_; reflexivity.
  - intros Hse Hsd. unfold DeleteChannel, Subscription, Topic.
    rewrite Hch, Hclient. delete_run. rewrite Hne. fold subID sub. rewrite Hse.
    delete_run. rewrite Hsd. delete_run. rewrite <- !app_assoc. reflexivity.
Qed.

Lemma DeleteChannel_stops_at_subscription_witness :
  DeleteChannel (Scenario.env (false, Some Fixture.errUnavailable) (true, None) [] None)
    (Fixture.service false) "test-channel" (Fixture.world' false)
  = (Ret (Some (Wrapf Fixture.errUnavailable "failed to retrieve subscription %q"
                  ["test-subscription"])),
     mkWorld (chans (Fixture.world' false)) (maps (Fixture.world' false))
       [CSubscriptionExists "projects/metrix-io/subscriptions/test-subscription"]).
Proof.
  apply (proj1 (DeleteChannel_stops_at_subscription
                  (Scenario.env (false, Some Fixture.errUnavailable) (true, None) [] None)
                  (Fixture.service false) "test-channel" 0%nat "metrix-io"
                  (Fixture.world' false) Fixture.errUnavailable eq_refl eq_refl
                  ltac:(discriminate)) false).
  reflexivity.
Defined.

(** ** Deleting every channel *)

(** What the loop of [DeleteAll] meets: a channel whose ID is registered. *)
Lemma ranges_registered (s : Service.t) (w : World) (order : list (option loc)) :
  registry_closed s w ->
  ranges_over s order ->
  Forall (fun p => exists l, p = Some l /\ Channel s (Channel.ID (chans w l)) <> None) order.
Proof.
  intros Hclosed Hrange. apply Forall_forall. intros p Hp.
  unfold ranges_over in Hrange. rewrite Hrange in Hp.
  apply list_elem_of_fmap in Hp as ([k p'] & -> & Hin).
  apply elem_of_map_to_list in Hin. exact (Hclosed k p' Hin).
Qed.

Lemma DeleteAll_loop_found (env : Env) (s : Service.t) (project : string)
    (order : list (option loc)) :
  Service.Client s = Some project ->
  forall w,
    Forall (fun p => exists l, p = Some l /\ Channel s (Channel.ID (chans w l)) <> None) order ->
    exists r new,
      DeleteAll env s order w = (Ret r, mkWorld (chans w) (maps w) (calls w ++ new))
      /\ (forall e, r = Some e -> translated e).
Proof.
  intros Hclient. induction order as [|p order IH]; intros w Hall.
  - exists None, []. split; [by rewrite app_nil_r; destruct w | discriminate].
  - apply Forall_cons in Hall as [(l & -> & Hreg) Hall].
    destruct (Channel s (Channel.ID (chans w l))) as [l'|] eqn:Hch; [|congruence].
    destruct (DeleteChannel_found env s _ l' project w Hch Hclient) as (r & new & Hrun & Htr).
    cbn [DeleteAll]. delete_run. rewrite Hrun.
    destruct r as [e|].
    + exists (Some e), new. split; [reflexivity | exact Htr].
    + destruct (IH (mkWorld (chans w) (maps w) (calls w ++ new)) Hall)
        as (r & new' & Hrest & Htr').
      rewrite Hrest. cbn [chans maps calls]. exists r, (new ++ new').
      split; [by rewrite app_assoc | exact Htr'].
Qed.

(** X5: On a service whose registry is closed, as [Configure] leaves it,
    [DeleteAll] returns in whatever order the registry is ranged over, and
    an error it returns comes from [translateError]: it is never the
    "not found" of a missing channel. *)
Theorem DeleteAll_finds_every_channel (env : Env) (s : Service.t) (project : string)
    (order : list (option loc)) (w : World) :
  registry_closed s w ->
  Service.Client s = Some project ->
  ranges_over s order ->
  exists r new,
    DeleteAll env s order w = (Ret r, mkWorld (chans w) (maps w) (calls w ++ new))
    /\ (forall e, r = Some e -> translated e)
    /\ (forall channel, r <> Some (Errorf "channel %q not found" [channel])).
Proof.
  intros Hclosed Hclient Hrange.
  destruct (DeleteAll_loop_found env s project order Hclient w
              (ranges_registered s w order Hclosed Hrange)) as (r & new & Hrun & Htr).
  exists r, new. split; [exact Hrun | split; [exact Htr|]].
  intros channel Hr. destruct (Htr _ Hr) as [Hc|(c & f & a & Hc)]; discriminate.
Qed.

Lemma closed_registry_of_tests (deadLetter : bool) :
  registry_closed (Fixture.service deadLetter) (Fixture.world' deadLetter).
Proof.
  intros k p Hk.
  assert (Hin : (k, p) ∈ map_to_list (Service.Channels (Fixture.service deadLetter)))
    by (by apply elem_of_map_to_list).
  destruct deadLetter; set (entries := map_to_list _) in Hin; vm_compute in entries;
    subst entries;
    repeat (apply elem_of_cons in Hin as [[= -> ->]|Hin];
            [eexists; split; [reflexivity | vm_compute; discriminate]|]);
    by apply elem_of_nil in Hin.
Qed.

Lemma DeleteAll_finds_every_channel_witness :
  exists r new,
    DeleteAll Fixture.env0 (Fixture.service true) (Scenario.order true) (Fixture.world' true)
    = (Ret r, mkWorld (chans (Fixture.world' true)) (maps (Fixture.world' true))
                (calls (Fixture.world' true) ++ new))
    /\ (forall e, r = Some e -> translated e)
    /\ (forall channel, r <> Some (Errorf "channel %q not found" [channel])).
Proof.
  apply (DeleteAll_finds_every_channel Fixture.env0 (Fixture.service true) "metrix-io"
           (Scenario.order true) (Fixture.world' true)).
  - apply closed_registry_of_tests.
  - reflexivity.
  - unfold ranges_over, Scenario.order. reflexivity.
Defined.

Lemma DeleteAll_loop_absent (env : Env) (s : Service.t) (project : string)
    (order : list (option loc)) :
  Service.Client s = Some project ->
  (forall cs x, Subscription_Exists env cs x = (false, None)) ->
  (forall cs x, Topic_Exists env cs x = (false, None)) ->
  forall w,
    Forall (fun p => exists l, p = Some l /\ Channel s (Channel.ID (chans w l)) <> None) order ->
    exists new,
      DeleteAll env s order w = (Ret None, mkWorld (chans w) (maps w) (calls w ++ new))
      /\ Forall is_existence_check new.
Proof.
  intros Hclient Hsub Htopic. induction order as [|p order IH]; intros w Hall.
  - exists []. split; [by rewrite app_nil_r; destruct w | constructor].
  - apply Forall_cons in Hall as [(l & -> & Hreg) Hall].
    destruct (Channel s (Channel.ID (chans w l))) as [l'|] eqn:Hch; [|congruence].
    destruct (DeleteChannel_absent_run env s _ l' project w Hch Hclient Hsub Htopic)
      as (new & Hrun & Hchecks).
    cbn [DeleteAll]. delete_run. rewrite Hrun.
    destruct (IH (mkWorld (chans w) (maps w) (calls w ++ new)) Hall)
      as (new' & Hrest & Hchecks').
    rewrite Hrest. cbn [chans maps calls]. exists (new ++ new').
    split; [by rewrite app_assoc | by apply Forall_app].
Qed.

(** X6: With no topic and no subscription on the transport, [DeleteAll] on a
    configured service returns no error, in whatever order the registry is
    ranged over, and the only calls it makes ask whether a resource exists:
    nothing is deleted. *)
Theorem DeleteAll_absent (env : Env) (s : Service.t) (project : string)
    (order : list (option loc)) (w : World) :
  registry_closed s w ->
  Service.Client s = Some project ->
  ranges_over s order ->
  (forall cs x, Subscription_Exists env cs x = (false, None)) ->
  (forall cs x, Topic_Exists env cs x = (false, None)) ->
  exists new,
    DeleteAll env s order w = (Ret None, mkWorld (chans w) (maps w) (calls w ++ new))
    /\ Forall is_existence_check new.
Proof.
  intros Hclosed Hclient Hrange Hsub Htopic.
  exact (DeleteAll_loop_absent env s project order Hclient Hsub Htopic w
           (ranges_registered s w order Hclosed Hrange)).
Qed.

Lemma DeleteAll_absent_witness :
  exists new,
    DeleteAll Scenario.absent (Fixture.service true) (Scenario.order true) (Fixture.world' true)
    = (Ret None, mkWorld (chans (Fixture.world' true)) (maps (Fixture.world' true))
                   (calls (Fixture.world' true) ++ new))
    /\ Forall is_existence_check new.
Proof.
  apply (DeleteAll_absent Scenario.absent (Fixture.service true) "metrix-io"
           (Scenario.order true) (Fixture.world' true)).
  - apply closed_registry_of_tests.
  - reflexivity.
  - unfold ranges_over, Scenario.order. reflexivity.
  - reflexivity.
  - reflexivity.
Defined.

(** ** More on dead-lettering *)



(** Apart from the count, the clone is the original with four entries
    set. *)
Lemma dead_letter_attributes_lookup (original : gmap string string)
    (id topicID subID text k : string) :
  k <> "deadLetterCount" ->
  dead_letter_attributes original id topicID subID text !! k
  = (<["error" := text]>
       (<["originalSubscriptionID" := subID]>
          (<["originalTopicID" := topicID]> (<["originalMessageID" := id]> original)))) !! k.
Proof.
  intros Hk. unfold dead_letter_attributes.
  destruct (_ !! "deadLetterCount") as [val|];
    [destruct (strconv.ParseInt val) as [i [e|]]|];
    rewrite ?lookup_insert_ne by congruence; reflexivity.
Qed.

(** X8: The message [DeadLetter] publishes goes to the topic of the dead-letter
    channel with the data of the original; it names the original's ID and
    the topic and subscription of the original's channel; its error
    attribute is a prefix of the cause's text of at most 1024 bytes; and
    every other attribute of the original, the count apart, is carried over
    unchanged. *)
Theorem DeadLetter_provenance (env : Env) (w : World) (s : Service.t) (m : Message.t)
    (l dl : loc) (c : error) (project text : string) :
  Service.DeadLetterChannel s = Some dl ->
  Service.Client s = Some project ->
  trimLeftBytes (Error (Sprintf env) c) 1024 = Ret text ->
  let original := map_content w (Message.Attributes m) in
  exists content disposition,
    calls (snd (DeadLetter env (RichMessage.mk (Some m) (Some s) (Some l)) (Some c) w))
    = calls w ++ [CPublish ("projects/" +:+ project +:+ "/topics/"
                            +:+ Channel.TopicID (chans w dl))
                    (Message.Data m) (length (maps w)) content;
                  disposition]
    /\ content !! "originalMessageID" = Some (Message.ID m)
    /\ content !! "originalTopicID" = Some (Channel.TopicID (chans w l))
    /\ content !! "originalSubscriptionID" = Some (Channel.SubscriptionID (chans w l))
    /\ content !! "error" = Some text
    /\ GoString.len text <= 1024
    /\ String.prefix text (Error (Sprintf env) c) = true
    /\ (forall k,
          k <> "originalMessageID" -> k <> "originalTopicID" ->
          k <> "originalSubscriptionID" -> k <> "error" -> k <> "deadLetterCount" ->
          content !! k = original !! k).
Proof.
  intros Hdl Hclient Htext original.
  pose proof (DeadLetter_run env w s m l dl c project text Hdl Hclient Htext) as Hrun.
  cbv zeta in Hrun. fold original in Hrun.
  set (attrs := dead_letter_attributes original (Message.ID m) (Channel.TopicID (chans w l))
                  (Channel.SubscriptionID (chans w l)) text) in *.
  set (topic := "projects/" +:+ project +:+ "/topics/" +:+ Channel.TopicID (chans w dl)) in *.
  destruct (trimLeftBytes_prefix _ _ 1024 ltac:(lia) Htext) as [Hprefix Hlen].
  exists attrs.
  exists (match Publish_Get env (calls w) topic (Message.Data m) attrs with
          | Some _ => CNack (Message.ID m)
          | None => CAck (Message.ID m)
          end).
  split.
  { rewrite Hrun. destruct (Publish_Get env (calls w) topic (Message.Data m) attrs);
      reflexivity. }
  subst attrs.
  repeat split; try assumption.
  - rewrite dead_letter_attributes_lookup by discriminate.
    rewrite !lookup_insert_ne by discriminate. by rewrite lookup_insert_eq.
  - rewrite dead_letter_attributes_lookup by discriminate.
    rewrite !lookup_insert_ne by discriminate. by rewrite lookup_insert_eq.
  - rewrite dead_letter_attributes_lookup by discriminate.
    rewrite !lookup_insert_ne by discriminate. by rewrite lookup_insert_eq.
  - rewrite dead_letter_attributes_lookup by discriminate. by rewrite lookup_insert_eq.
  - intros k H1 H2 H3 H4 H5. rewrite dead_letter_attributes_lookup by exact H5.
    by rewrite !lookup_insert_ne by congruence.
Qed.

Lemma DeadLetter_provenance_witness :
  exists content disposition,
    calls (snd (DeadLetter Fixture.env0 (Fixture.rich true) (Some Fixture.errTest)
                  (Fixture.world' true)))
    = [CPublish "projects/metrix-io/topics/dead-letter-topic" "payload" 1%nat content;
       disposition]
    /\ content !! "originalMessageID" = Some "m1"
    /\ content !! "event" = Some "ev1".
Proof.
  destruct (DeadLetter_provenance Fixture.env0 (Fixture.world' true) (Fixture.service true)
              Fixture.message 0%nat 2%nat Fixture.errTest "metrix-io" "test error"
              eq_refl eq_refl eq_refl)
    as (content & disposition & Hcalls & Hid & _ & _ & _ & _ & _ & Hother).
  exists content, disposition. split; [exact Hcalls | split; [exact Hid|]].
  rewrite Hother by discriminate. reflexivity.
Defined.

(** ** More on the retry policy *)

(** X9: A message older than its channel's [MaxRetryAge], on a service without
    a dead-letter channel, is neither nacked nor acknowledged nor published:
    [RetryableError] returns the configuration error and calls nothing. *)
Theorem RetryableError_expired_without_dead_letter (env : Env) (w : World)
    (s : Service.t) (m : Message.t) (l : loc) (cause : option error) :
  Service.DeadLetterChannel s = None ->
  Channel.MaxRetryAge (chans w l) < time.Since (Now env (calls w)) (Message.PublishTime m) ->
  RetryableError env (RichMessage.mk (Some m) (Some s) (Some l)) cause w
  = (Ret (Some (New "no deadletter channel configured")), w).
Proof.
  intros Hdl Hold. unfold RetryableError.
  cbn [bind deref ret ask_calls read_chan RichMessage.Message RichMessage.Channel].
  destruct (Z.ltb_spec (Channel.MaxRetryAge (chans w l))
              (time.Since (Now env (calls w)) (Message.PublishTime m))) as [_|?]; [|lia].
  unfold DeadLetter. cbn [bind deref ret RichMessage.Service]. rewrite Hdl. reflexivity.
Qed.

Lemma RetryableError_expired_without_dead_letter_witness :
  RetryableError (Fixture.env (121 * time.Second) None []) (Fixture.rich false)
    (Some Fixture.errTest) (Fixture.world' false)
  = (Ret (Some (New "no deadletter channel configured")), Fixture.world' false).
Proof.
  apply (RetryableError_expired_without_dead_letter (Fixture.env (121 * time.Second) None [])
           (Fixture.world' false) (Fixture.service false) Fixture.message 0%nat
           (Some Fixture.errTest)).
  - reflexivity.
  - vm_compute. reflexivity.
Defined.

(** ** Publishing *)

(** X10: On a registered channel [PublishEvent] publishes one message to the
    channel's topic: the marshalled payload with the single attribute
    "event", in a map of its own; it returns the publish error through
    [translateError].  A payload that cannot be marshalled is returned as a
    wrapped error, never as [ErrClosed], before anything is called, even
    with no client connected. *)
Theorem PublishEvent_publishes (env : Env) (s : Service.t) (w : World)
    (channel eventName : string) (l : loc) :
  Channel s channel = Some l ->
  let topicID := Channel.TopicID (chans w l) in
  (forall bytes err,
      PublishEvent env s channel eventName (bytes, Some err) w
      = (Ret (Some (Wrapf err "failed to marshal payload for event %q on t %q"
                      [eventName; topicID])), w))
  /\ (forall bytes project,
        Service.Client s = Some project ->
        let topic := "projects/" +:+ project +:+ "/topics/" +:+ topicID in
        let attrs : gmap string string := {["event" := eventName]} in
        PublishEvent env s channel eventName (bytes, None) w
        = (Ret (translateError (Publish_Get env (calls w) topic bytes attrs)
                  "could not publish event %q to t %q" [eventName; topicID]),
           mkWorld (chans w) (maps w ++ [attrs])
             (calls w ++ [CPublish topic bytes (length (maps w)) attrs]))).
Proof.
  intros Hch topicID. split.
  - intros bytes err. unfold PublishEvent. rewrite Hch. reflexivity.
  - intros bytes project Hclient topic attrs. unfold PublishEvent, Topic.
    rewrite Hch, Hclient.
    cbn [bind read_chan deref ret make_map map_store Publish map_content maps chans calls].
    rewrite alter_fresh, lookup_fresh. cbn [default id]. fold topicID topic.
    change (<["event":=eventName]> (∅ : gmap string string)) with attrs.
    destruct (Publish_Get env (calls w) topic bytes attrs) as [e|]; reflexivity.
Qed.

Lemma PublishEvent_publishes_witness :
  PublishEvent Fixture.env0 (Fixture.service false) "test-channel" "ev1"
    ("payload", None) (Fixture.world' false)
  = (Ret None,
     mkWorld (chans (Fixture.world' false)) (maps (Fixture.world' false) ++ [{["event" := "ev1"]}])
       [CPublish "projects/metrix-io/topics/test-topic" "payload" 1%nat {["event" := "ev1"]}]).
Proof.
  apply (proj2 (PublishEvent_publishes Fixture.env0 (Fixture.service false)
                  (Fixture.world' false) "test-channel" "ev1" 0%nat eq_refl)
           "payload" "metrix-io" eq_refl).
Defined.

(** ** More on bounded receiving *)

Section ReceiveNrOutcome.

Variables (s : Service.t) (l : loc) (nrOfMessages : Z) (final : option error).

Let wrap (m : Message.t) : RichMessage.t := RichMessage.mk (Some m) (Some s) (Some l).
Let ack (m : Message.t) : Call := CAck (Message.ID m).

(** The number of messages after which the callback cancels: the count, and
    one for a count below one. *)
Let need : nat := Z.to_nat (Z.max nrOfMessages 1).

(** With [r + 1] messages still to collect, the loop acknowledges and
    collects the next [r + 1] messages and is cancelled, or all the messages
    there are when they are fewer, and then ends as the deliveries do. *)
Lemma ReceiveNr_loop_outcome (deliveries : list Message.t) :
  forall (r : nat) (msgs : list RichMessage.t) (w : World),
    need = (length msgs + S r)%nat ->
    let received := take (S r) deliveries in
    receive_loop (ReceiveNr_callback s l nrOfMessages) snd deliveries final (msgs, false) w
    = (Ret ((msgs ++ map wrap received, bool_decide (S r <= length deliveries)%nat),
            if bool_decide (S r <= length deliveries)%nat then None else final),
       mkWorld (chans w) (maps w) (calls w ++ map ack received)).
Proof.
  induction deliveries as [|d rest IH]; intros r msgs w Hneed received.
  - cbn [receive_loop snd]. subst received. cbn [take map length].
    rewrite bool_decide_eq_false_2 by lia. rewrite !app_nil_r. by destruct w.
  - cbn [receive_loop snd]. unfold ReceiveNr_callback at 1. cbn [bind call fst snd].
    destruct (nrOfMessages <=? _) eqn:Hb.
    + apply Z.leb_le in Hb. rewrite length_app in Hb. simpl in Hb.
      assert (r = 0%nat) by (unfold need in Hneed; lia). subst r.
      cbv [bind call ret]. rewrite receive_loop_cancelled by reflexivity.
      subst received. cbn [take map length]. rewrite take_0.
      rewrite bool_decide_eq_true_2 by lia. reflexivity.
    + apply Z.leb_gt in Hb. rewrite length_app in Hb. simpl in Hb.
      destruct r as [|r]; [unfold need in Hneed; lia|].
      cbv [bind call ret]. rewrite (IH r) by (rewrite length_app; simpl; lia).
      cbn [chans maps calls]. subst received. cbn [take map length]. fold wrap ack.
      rewrite <- !app_assoc. cbn [app].
      destruct (bool_decide (S r <= length rest)%nat) eqn:Hd.
      * apply bool_decide_eq_true_1 in Hd. rewrite bool_decide_eq_true_2 by lia. reflexivity.
      * apply bool_decide_eq_false_1 in Hd. rewrite bool_decide_eq_false_2 by lia. reflexivity.
Qed.

End ReceiveNrOutcome.

(** X11: What [ReceiveNr] does on a registered channel, for every count and
    every run of deliveries: it acknowledges and collects messages until it
    has [count] of them, and one for a count below one, or until the
    deliveries end.  It returns what it collected, with no error, when it
    reached that number or the loop ended with nil; when the loop ended
    earlier with an error it returns that error, translated, and no message
    at all, although the messages received so far have been acknowledged. *)
Theorem ReceiveNr_outcome (env : Env) (s : Service.t) (w : World) (channel : string)
    (l : loc) (project : string) (deliveries : list Message.t) (final : option error)
    (count : Z) :
  Channel s channel = Some l ->
  Service.Client s = Some project ->
  let subID := Channel.SubscriptionID (chans w l) in
  let sub := "projects/" +:+ project +:+ "/subscriptions/" +:+ subID in
  Subscription_Receive env (calls w) sub = (deliveries, final) ->
  let need := Z.to_nat (Z.max count 1) in
  let received := take need deliveries in
  let ended := if bool_decide (need <= length deliveries)%nat then None else final in
  ReceiveNr env s channel count w
  = (Ret match ended with
         | Some err =>
             ([], translateError (Some err) "receiving message from subscription %q failed"
                    [subID])
         | None => (map (fun m => RichMessage.mk (Some m) (Some s) (Some l)) received, None)
         end,
     mkWorld (chans w) (maps w)
       (calls w ++ CReceive sub :: map (fun m => CAck (Message.ID m)) received)).
Proof.
  intros Hch Hclient subID sub Hscript need received ended.
  unfold ReceiveNr, Subscription, sub_Receive. rewrite Hch, Hclient.
  cbv [bind read_chan deref ret ask_calls call]. fold subID sub. rewrite Hscript.
  assert (Hneed : need = S (Nat.pred need)) by (unfold need; lia).
  rewrite (ReceiveNr_loop_outcome s l count final deliveries (Nat.pred need) []);
    [|exact Hneed].
  rewrite <- Hneed. fold received ended.
  cbn [snd fst app chans maps calls]. rewrite <- app_assoc.
  destruct ended; reflexivity.
Qed.

(** Asked for two messages when one arrives before the transport fails,
    [ReceiveNr] acknowledges that message and returns none. *)
Lemma ReceiveNr_outcome_witness :
  ReceiveNr (Scenario.env (true, None) (true, None) [Fixture.message]
               (Some Fixture.errUnavailable))
    (Fixture.service false) "test-channel" 2 (Fixture.world' false)
  = (Ret ([], Some (Wrapf Fixture.errUnavailable
                      "receiving message from subscription %q failed" ["test-subscription"])),
     mkWorld (chans (Fixture.world' false)) (maps (Fixture.world' false))
       [CReceive "projects/metrix-io/subscriptions/test-subscription"; CAck "m1"]).
Proof.
  apply (ReceiveNr_outcome
           (Scenario.env (true, None) (true, None) [Fixture.message]
              (Some Fixture.errUnavailable))
           (Fixture.service false) (Fixture.world' false) "test-channel" 0%nat "metrix-io"
           [Fixture.message] (Some Fixture.errUnavailable) 2 eq_refl eq_refl eq_refl).
Defined.

(** ** Registering channels *)



(** ** The outcome of a truncation *)

(** X14: For a non-negative limit [trimLeftBytes] panics exactly when the string
    is as long as the limit and is not valid UTF-8; in every other case it
    returns a prefix of the string of at most [maxBytes] bytes. *)
Theorem trimLeftBytes_outcome (str : string) (maxBytes : Z) :
  0 <= maxBytes ->
  (GoString.len str = maxBytes /\ utf8.ValidString str = false
   /\ trimLeftBytes str maxBytes = Panic "index out of range")
  \/ (~ (GoString.len str = maxBytes /\ utf8.ValidString str = false)
      /\ exists res,
           trimLeftBytes str maxBytes = Ret res
           /\ String.prefix res str = true
           /\ GoString.len res <= maxBytes).
Proof.
  intros Hmax. destruct (trimLeftBytes str maxBytes) as [res|r] eqn:Hrun.
  - right. split.
    + intros Hbad. apply (trimLeftBytes_panics_iff str maxBytes Hmax) in Hbad as [r Hr].
      congruence.
    + exists res. split; [reflexivity|]. exact (trimLeftBytes_prefix str res maxBytes Hmax Hrun).
  - left.
    assert (Hbad : GoString.len str = maxBytes /\ utf8.ValidString str = false)
      by (apply (trimLeftBytes_panics_iff str maxBytes Hmax); eauto).
    destruct Hbad as [Hlen Hinv]. split; [exact Hlen | split; [exact Hinv|]].
    f_equal. revert Hrun. unfold trimLeftBytes, GoString.slice_to, GoString.len in *.
    destruct (Z.ltb_spec (Z.of_nat (String.length str)) maxBytes); [lia|].
    destruct (Z.ltb_spec maxBytes 0); [lia|]. cbn [orb].
    rewrite <- Hlen, Nat2Z.id, take_all, Hinv in *.
    rewrite trim_loop_at_end; [congruence|].
    destruct str; [discriminate Hinv | simpl; lia].
Qed.

Lemma trimLeftBytes_outcome_witness :
  (GoString.len Fixture.invalid_byte = 1 /\ utf8.ValidString Fixture.invalid_byte = false
   /\ trimLeftBytes Fixture.invalid_byte 1 = Panic "index out of range")
  \/ (~ (GoString.len Fixture.invalid_byte = 1 /\ utf8.ValidString Fixture.invalid_byte = false)
      /\ exists res,
           trimLeftBytes Fixture.invalid_byte 1 = Ret res
           /\ String.prefix res Fixture.invalid_byte = true
           /\ GoString.len res <= 1).
Proof. apply (trimLeftBytes_outcome Fixture.invalid_byte 1). lia. Defined.

(** ** Creating topics and subscriptions *)

Ltac checks_done := repeat (apply Forall_cons_2; [exact I|]); apply Forall_nil_2.

Section Reconciliation.

Import Topology.

Variables (faults : Faults) (s : Service.t) (project : string).
Hypothesis Hclient : Service.Client s = Some project.

Let topic_name (topicID : string) : string := "projects/" +:+ project +:+ "/topics/" +:+ topicID.
Let sub_name (subID : string) : string :=
  "projects/" +:+ project +:+ "/subscriptions/" +:+ subID.

(** One run of [EnsureTopic]. *)
Lemma EnsureTopic_run (topicID : string) (c : Cloud) :
  exists o c' new,
    EnsureTopic faults s topicID c = (Ret o, c')
    /\ subscriptions c' = subscriptions c
    /\ topics c ⊆ topics c'
    /\ history c' = history c ++ new
    /\ (o = None -> topic_name topicID ∈ topics c')
    /\ (topic_name topicID ∈ topics c -> topics c' = topics c /\ Forall is_check new)
    /\ ((forall h k, faults h k = None) -> o = None).
Proof.
  unfold EnsureTopic, attempt. rewrite Hclient. fold (topic_name topicID).
  cbn [topics subscriptions history].
  destruct (faults (history c) (TopicExists (topic_name topicID))) as [e|] eqn:Hcheck.
  - eexists _, _, [TopicExists (topic_name topicID)]. split; [reflexivity|].
    cbn [topics subscriptions history]. repeat split; try done.
    + checks_done.
    + intros Hno. rewrite Hno in Hcheck. discriminate.
  - destruct (decide (topic_name topicID ∈ topics c)) as [Hin|Hout].
    + eexists _, _, [TopicExists (topic_name topicID)]. split; [reflexivity|].
      cbn [topics subscriptions history]. repeat split; try done. checks_done.
    + destruct (faults _ (CreateTopic (topic_name topicID))) as [e|] eqn:Hcreate.
      * eexists _, _, [TopicExists (topic_name topicID); CreateTopic (topic_name topicID)].
        split; [reflexivity|]. cbn [topics subscriptions history].
        repeat split; try done.
        -- by rewrite <- app_assoc.
        -- intros Hno. rewrite Hno in Hcreate. discriminate.
      * eexists _, _, [TopicExists (topic_name topicID); CreateTopic (topic_name topicID)].
        split; [reflexivity|]. cbn [topics subscriptions history].
        repeat split; try done; try set_solver.
        by rewrite <- app_assoc.
Qed.

(** One run of [EnsureSubscription]. *)
Lemma EnsureSubscription_run (topicID subID : string) (c : Cloud) :
  exists o c' new,
    EnsureSubscription faults s topicID subID c = (Ret o, c')
    /\ topics c' = topics c
    /\ subscriptions c ⊆ subscriptions c'
    /\ history c' = history c ++ new
    /\ (o = None -> is_Some (subscriptions c' !! sub_name subID))
    /\ (is_Some (subscriptions c !! sub_name subID) ->
        subscriptions c' = subscriptions c /\ Forall is_check new)
    /\ ((forall h k, faults h k = None) -> topic_name topicID ∈ topics c -> o = None).
Proof.
  unfold EnsureSubscription, attempt. rewrite Hclient.
  fold (topic_name topicID) (sub_name subID). cbn [topics subscriptions history].
  destruct (faults (history c) (SubscriptionExists (sub_name subID))) as [e|] eqn:Hcheck.
  - eexists _, _, [SubscriptionExists (sub_name subID)]. split; [reflexivity|].
    cbn [topics subscriptions history]. repeat split; try done.
    + checks_done.
    + intros Hno. rewrite Hno in Hcheck. discriminate.
  - destruct (decide (is_Some (subscriptions c !! sub_name subID))) as [Hin|Hout].
    + eexists _, _, [SubscriptionExists (sub_name subID)]. split; [reflexivity|].
      cbn [topics subscriptions history]. repeat split; try done. checks_done.
    + destruct (faults _ (CreateSubscription _ _ _)) as [e|] eqn:Hcreate.
      * eexists _, _, [SubscriptionExists (sub_name subID);
                       CreateSubscription (sub_name subID) (topic_name topicID)
                         (10 * time.Second)].
        split; [reflexivity|]. cbn [topics subscriptions history].
        repeat split; try done.
        -- by rewrite <- app_assoc.
        -- intros Hno. rewrite Hno in Hcreate. discriminate.
      * destruct (decide (topic_name topicID ∈ topics c)) as [Htopic|Htopic].
        -- eexists _, _, [SubscriptionExists (sub_name subID);
                          CreateSubscription (sub_name subID) (topic_name topicID)
                            (10 * time.Second)].
           split; [reflexivity|]. cbn [topics subscriptions history].
           repeat split; try done.
           ++ apply insert_subseteq. by apply eq_None_not_Some.
           ++ by rewrite <- app_assoc.
           ++ by rewrite lookup_insert_eq.
        -- eexists _, _, [SubscriptionExists (sub_name subID);
                          CreateSubscription (sub_name subID) (topic_name topicID)
                            (10 * time.Second)].
           split; [reflexivity|]. cbn [topics subscriptions history].
           repeat split; try done. by rewrite <- app_assoc.
Qed.

Lemma provisioned_mono (ch : Channel.t) (c c' : Cloud) :
  topics c ⊆ topics c' ->
  subscriptions c ⊆ subscriptions c' ->
  provisioned project ch c -> provisioned project ch c'.
Proof.
  intros Ht Hs [Htopic Hsub]. split; [set_solver|].
  intros Hne. destruct (Hsub Hne) as [x Hx]. exists x.
  by apply (lookup_weaken _ _ _ _ Hx).
Qed.

(** A topic that exists is only checked. *)
Lemma EnsureTopic_existing (topicID : string) (c : Cloud) :
  faults (history c) (TopicExists (topic_name topicID)) = None ->
  topic_name topicID ∈ topics c ->
  EnsureTopic faults s topicID c
  = (Ret None,
     mkCloud (topics c) (subscriptions c) (history c ++ [TopicExists (topic_name topicID)])).
Proof.
  intros Hcheck Hin. unfold EnsureTopic, attempt. rewrite Hclient.
  fold (topic_name topicID). rewrite Hcheck. cbn [topics].
  destruct (decide (topic_name topicID ∈ topics c)); [reflexivity | contradiction].
Qed.

(** One run of [CreateAll] over channels that are not nil. *)
Lemma CreateAll_run (chans : loc -> Channel.t) (order : list (option loc)) :
  Forall (fun p => p <> None) order ->
  forall c,
    exists o c' new,
      CreateAll faults chans s order c = (Ret o, c')
      /\ topics c ⊆ topics c'
      /\ subscriptions c ⊆ subscriptions c'
      /\ history c' = history c ++ new
      /\ (o = None -> forall l, Some l ∈ order -> provisioned project (chans l) c')
      /\ ((forall h k, faults h k = None) -> o = None)
      /\ ((forall l, Some l ∈ order -> provisioned project (chans l) c) ->
          topics c' = topics c /\ subscriptions c' = subscriptions c /\ Forall is_check new).
Proof.
  induction order as [|p order IH]; intros Hall c.
  - exists None, c, []. cbn [CreateAll]. rewrite app_nil_r.
    repeat apply conj; try done.
    intros _ l Hl. by apply elem_of_nil in Hl.
  - apply Forall_cons in Hall as [Hp Hall]. destruct p as [l|]; [|congruence].
    cbn [CreateAll].
    destruct (EnsureTopic_run (Channel.TopicID (chans l)) c)
      as (o1 & c1 & new1 & Hrun1 & Hsubs1 & Htop1 & Hhist1 & Hok1 & Hex1 & Hnf1).
    rewrite Hrun1. destruct o1 as [e1|].
    { exists (Some e1), c1, new1. repeat apply conj; try done.
      - by rewrite Hsubs1.
      - intros H. destruct Hex1 as [Heq Hch]; [apply H; by left|]. auto. }
    specialize (Hok1 eq_refl).
    destruct (String.eqb (Channel.SubscriptionID (chans l)) "") eqn:Hempty.
    { apply String.eqb_eq in Hempty.
      destruct (IH Hall c1) as (o & c' & new & Hrun & Htop & Hsubs & Hhist & Hok & Hnf & Hex).
      exists o, c', (new1 ++ new). rewrite Hrun. repeat apply conj; try done.
      - by transitivity (topics c1).
      - by rewrite <- Hsubs1.
      - by rewrite Hhist, Hhist1, app_assoc.
      - intros Ho l' Hl'. apply elem_of_cons in Hl' as [[= ->]|Hl']; [|by apply Hok].
        apply (provisioned_mono _ c1 c' Htop Hsubs). split; [exact Hok1 | congruence].
      - intros H.
        assert (Hprov1 : forall l', Some l' ∈ order -> provisioned project (chans l') c1).
        { intros l' Hl'. apply (provisioned_mono _ c c1 Htop1); [by rewrite Hsubs1|].
          apply H. by right. }
        destruct (Hex Hprov1) as (Ht & Hs & Hchecks).
        destruct Hex1 as [Heq Hch]; [apply H; by left|].
        repeat apply conj; [congruence | congruence | by apply Forall_app]. }
    apply String.eqb_neq in Hempty.
    destruct (EnsureSubscription_run (Channel.TopicID (chans l))
                (Channel.SubscriptionID (chans l)) c1)
      as (o2 & c2 & new2 & Hrun2 & Htop2 & Hsubs2 & Hhist2 & Hok2 & Hex2 & Hnf2).
    rewrite Hrun2.
    assert (Hhead : provisioned project (chans l) c ->
                    topics c2 = topics c /\ subscriptions c2 = subscriptions c
                    /\ Forall is_check (new1 ++ new2)).
    { intros [Ht Hs]. destruct (Hex1 Ht) as [Heq1 Hch1].
      destruct Hex2 as [Heq2 Hch2]; [rewrite Hsubs1; by apply Hs|].
      repeat apply conj; [congruence | congruence | by apply Forall_app]. }
    destruct o2 as [e2|].
    { exists (Some e2), c2, (new1 ++ new2). repeat apply conj; try done.
      - by rewrite Htop2.
      - by rewrite <- Hsubs1.
      - by rewrite Hhist2, Hhist1, app_assoc.
      - intros Hno. specialize (Hnf2 Hno Hok1). discriminate.
      - intros H. apply Hhead, H. by left. }
    specialize (Hok2 eq_refl).
    destruct (IH Hall c2) as (o & c' & new & Hrun & Htop & Hsubs & Hhist & Hok & Hnf & Hex).
    exists o, c', (new1 ++ new2 ++ new). rewrite Hrun.
    repeat apply conj; try done.
    + transitivity (topics c1); [done | by rewrite <- Htop2].
    + rewrite <- Hsubs. by rewrite <- Hsubs2, <- Hsubs1.
    + by rewrite Hhist, Hhist2, Hhist1, !app_assoc.
    + intros Ho l' Hl'. apply elem_of_cons in Hl' as [[= ->]|Hl']; [|by apply Hok].
      apply (provisioned_mono _ c2 c' Htop Hsubs). split; [by rewrite Htop2 | by intros _].
    + intros H.
      assert (Hprov2 : forall l', Some l' ∈ order -> provisioned project (chans l') c2).
      { intros l' Hl'. apply (provisioned_mono _ c c2); [by rewrite Htop2 | by rewrite <- Hsubs1 |].
        apply H. by right. }
      destruct (Hex Hprov2) as (Ht & Hs & Hchecks).
      destruct Hhead as (Ht2 & Hs2 & Hch2); [apply H; by left|].
      repeat apply conj; [congruence | congruence |].
      rewrite app_assoc. by apply Forall_app.
Qed.

(** X15: On a transport that does not fail, [EnsureTopic] returns nil and the
    topic then exists; called again, it returns nil after a single existence
    check and changes neither the topics nor the subscriptions: nothing is
    created twice. *)
Theorem EnsureTopic_idempotent (topicID : string) (c : Cloud) :
  (forall h k, faults h k = None) ->
  exists c1,
    EnsureTopic faults s topicID c = (Ret None, c1)
    /\ topic_name topicID ∈ topics c1
    /\ subscriptions c1 = subscriptions c
    /\ EnsureTopic faults s topicID c1
       = (Ret None,
          mkCloud (topics c1) (subscriptions c1)
            (history c1 ++ [TopicExists (topic_name topicID)])).
Proof.
  intros Hno.
  destruct (EnsureTopic_run topicID c)
    as (o & c1 & new & Hrun & Hsubs & _ & _ & Hok & _ & Hnf).
  rewrite (Hnf Hno) in Hrun. exists c1. repeat apply conj; try done.
  - by apply Hok, Hnf.
  - apply EnsureTopic_existing; [apply Hno | by apply Hok, Hnf].
Qed.

(** X16: On a transport that does not fail, [EnsureSubscription] creates a
    missing subscription on the topic with an acknowledgement deadline of
    ten seconds, after one existence check; a subscription that exists is
    left as it is, whatever its topic and deadline. *)
Theorem EnsureSubscription_creates_once (topicID subID : string) (c : Cloud) :
  (forall h k, faults h k = None) ->
  (subscriptions c !! sub_name subID = None ->
   topic_name topicID ∈ topics c ->
   EnsureSubscription faults s topicID subID c
   = (Ret None,
      mkCloud (topics c)
        (<[sub_name subID := (topic_name topicID, 10 * time.Second)]> (subscriptions c))
        (history c ++ [SubscriptionExists (sub_name subID);
                       CreateSubscription (sub_name subID) (topic_name topicID)
                         (10 * time.Second)])))
  /\ (forall bound,
        subscriptions c !! sub_name subID = Some bound ->
        EnsureSubscription faults s topicID subID c
        = (Ret None,
           mkCloud (topics c) (subscriptions c)
             (history c ++ [SubscriptionExists (sub_name subID)]))).
Proof.
  intros Hno. split.
  - intros Hnone Htopic. unfold EnsureSubscription, attempt. rewrite Hclient.
    fold (topic_name topicID) (sub_name subID). rewrite !Hno. cbn [topics subscriptions history].
    destruct (decide (is_Some (subscriptions c !! sub_name subID))) as [[x Hx]|_];
      [congruence|].
    destruct (decide (topic_name topicID ∈ topics c)); [|contradiction].
    by rewrite <- app_assoc.
  - intros bound Hsome. unfold EnsureSubscription, attempt. rewrite Hclient.
    fold (topic_name topicID) (sub_name subID). rewrite !Hno. cbn [topics subscriptions history].
    destruct (decide (is_Some (subscriptions c !! sub_name subID))) as [_|Hnot];
      [reflexivity|].
    exfalso. apply Hnot. by exists bound.
Qed.

(** X17: [CreateAll] on a configured service returns, in whatever order the
    registry is ranged over and whatever the transport fails; it never
    removes a topic or a subscription; when it returns nil every registered
    channel has its topic and, if it names one, its subscription; and on a
    transport that does not fail it returns nil. *)
Theorem CreateAll_provisions (w : World) (order : list (option loc)) (c : Cloud) :
  registry_closed s w ->
  ranges_over s order ->
  exists o c',
    CreateAll faults (chans w) s order c = (Ret o, c')
    /\ topics c ⊆ topics c'
    /\ subscriptions c ⊆ subscriptions c'
    /\ (o = None -> forall l, Some l ∈ order -> provisioned project (chans w l) c')
    /\ ((forall h k, faults h k = None) -> o = None).
Proof.
  intros Hclosed Hrange.
  assert (Hall : Forall (fun p : option loc => p <> None) order).
  { eapply Forall_impl; [exact (ranges_registered s w order Hclosed Hrange)|].
    intros p (l & -> & _). discriminate. }
  destruct (CreateAll_run (chans w) order Hall c)
    as (o & c' & new & Hrun & Htop & Hsubs & _ & Hok & Hnf & _).
  exists o, c'. auto.
Qed.

(** X18: When every registered channel has its resources, [CreateAll] only asks
    whether they exist: it creates nothing and leaves the topics and the
    subscriptions as they are.  So a second [CreateAll] after a successful
    one changes nothing. *)
Theorem CreateAll_converges (w : World) (order : list (option loc)) (c : Cloud) :
  registry_closed s w ->
  ranges_over s order ->
  (forall l, Some l ∈ order -> provisioned project (chans w l) c) ->
  exists o new,
    CreateAll faults (chans w) s order c
    = (Ret o, mkCloud (topics c) (subscriptions c) (history c ++ new))
    /\ Forall is_check new
    /\ ((forall h k, faults h k = None) -> o = None).
Proof.
  intros Hclosed Hrange Hprov.
  assert (Hall : Forall (fun p : option loc => p <> None) order).
  { eapply Forall_impl; [exact (ranges_registered s w order Hclosed Hrange)|].
    intros p (l & -> & _). discriminate. }
  destruct (CreateAll_run (chans w) order Hall c)
    as (o & c' & new & Hrun & _ & _ & Hhist & _ & Hnf & Hsame).
  destruct (Hsame Hprov) as (Ht & Hs & Hchecks).
  exists o, new. split; [|auto].
  rewrite Hrun. destruct c' as [t' s' h']. cbn in Ht, Hs, Hhist. by subst.
Qed.

End Reconciliation.

Lemma EnsureTopic_idempotent_witness :
  exists c1,
    Topology.EnsureTopic Topology.no_faults (Fixture.service true) "test-topic" Topology.empty
    = (Ret None, c1)
    /\ "projects/metrix-io/topics/test-topic" ∈ Topology.topics c1
    /\ Topology.subscriptions c1 = ∅
    /\ Topology.EnsureTopic Topology.no_faults (Fixture.service true) "test-topic" c1
       = (Ret None,
          Topology.mkCloud (Topology.topics c1) (Topology.subscriptions c1)
            (Topology.history c1
             ++ [Topology.TopicExists "projects/metrix-io/topics/test-topic"])).
Proof.
  apply (EnsureTopic_idempotent Topology.no_faults (Fixture.service true) "metrix-io" eq_refl
           "test-topic" Topology.empty).
  reflexivity.
Defined.

Lemma EnsureSubscription_creates_once_witness :
  Topology.EnsureSubscription Topology.no_faults (Fixture.service true) "test-topic"
    "test-subscription"
    (Topology.mkCloud {["projects/metrix-io/topics/test-topic"]} ∅ [])
  = (Ret None,
     Topology.mkCloud {["projects/metrix-io/topics/test-topic"]}
       (<["projects/metrix-io/subscriptions/test-subscription"
          := ("projects/metrix-io/topics/test-topic", 10 * time.Second)]> ∅)
       [Topology.SubscriptionExists "projects/metrix-io/subscriptions/test-subscription";
        Topology.CreateSubscription "projects/metrix-io/subscriptions/test-subscription"
          "projects/metrix-io/topics/test-topic" (10 * time.Second)]).
Proof.
  apply (proj1 (EnsureSubscription_creates_once Topology.no_faults (Fixture.service true)
                  "metrix-io" eq_refl "test-topic" "test-subscription"
                  (Topology.mkCloud {["projects/metrix-io/topics/test-topic"]} ∅ [])
                  ltac:(reflexivity))).
  - reflexivity.
  - reflexivity.
Defined.

Lemma CreateAll_provisions_witness :
  exists o c',
    Topology.CreateAll Topology.no_faults (chans (Fixture.world' true)) (Fixture.service true)
      (Scenario.order true) Topology.empty = (Ret o, c')
    /\ Topology.topics Topology.empty ⊆ Topology.topics c'
    /\ Topology.subscriptions Topology.empty ⊆ Topology.subscriptions c'
    /\ (o = None ->
        forall l, Some l ∈ Scenario.order true ->
                  Topology.provisioned "metrix-io" (chans (Fixture.world' true) l) c')
    /\ ((forall h k, Topology.no_faults h k = None) -> o = None).
Proof.
  apply (CreateAll_provisions Topology.no_faults (Fixture.service true) "metrix-io" eq_refl
           (Fixture.world' true) (Scenario.order true) Topology.empty).
  - apply closed_registry_of_tests.
  - unfold ranges_over, Scenario.order. reflexivity.
Defined.

Lemma CreateAll_converges_witness :
  exists o new,
    Topology.CreateAll Topology.no_faults (chans (Fixture.world' true)) (Fixture.service true)
      (Scenario.order true) Scenario.cloud_after
    = (Ret o,
       Topology.mkCloud (Topology.topics Scenario.cloud_after)
         (Topology.subscriptions Scenario.cloud_after)
         (Topology.history Scenario.cloud_after ++ new))
    /\ Forall Topology.is_check new
    /\ ((forall h k, Topology.no_faults h k = None) -> o = None).
Proof.
  apply (CreateAll_converges Topology.no_faults (Fixture.service true) "metrix-io" eq_refl
           (Fixture.world' true) (Scenario.order true) Scenario.cloud_after).
  - apply closed_registry_of_tests.
  - unfold ranges_over, Scenario.order. reflexivity.
  - intros l Hl. set (order := Scenario.order true) in Hl. vm_compute in order. subst order.
    repeat (apply elem_of_cons in Hl as [[= ->]|Hl];
            [split;
             [reflexivity
             | intros Hne;
               first [exfalso; apply Hne; reflexivity | eexists; vm_compute; reflexivity]]|]).
    by apply elem_of_nil in Hl.
Defined.

(** ** Receiving *)




(** ** Counting dead-letters *)

Section Decimal.

Import GoString.

Lemma uint_value_le (d : Decimal.uint) : forall n, 0 <= n -> n <= uint_value d n.
Proof.
  induction d; intros n Hn; cbn [uint_value]; try lia;
    match goal with
    | IH : forall n, _ |- _ <= uint_value _ ?m => pose proof (IH m)
    end; lia.
Qed.

Ltac eval_byte :=
  match goal with
  | |- context [byte_val ?c] =>
      let v := eval vm_compute in (byte_val c) in change (byte_val c) with v
  end.

(** The digit loop of [ParseUint] reads what [FormatInt] writes. *)
Lemma ParseUint_loop_digits (d : Decimal.uint) :
  forall n,
    0 <= n ->
    uint_value d n <= strconv.maxUint64 ->
    strconv.ParseUint_loop (NilEmpty.string_of_uint d) n = (uint_value d n, None).
Proof.
  induction d; intros n Hn Hmax;
    cbn [NilEmpty.string_of_uint uint_value strconv.ParseUint_loop] in *;
    [reflexivity | ..].
  all: eval_byte; cbn [Z.leb Z.compare Pos.compare Pos.compare_cont andb Z.sub Z.add
                       Z.opp Z.pos_sub Pos.pred_double Z.succ_double Z.pred_double Z.double].
  all: match type of Hmax with
       | uint_value ?x ?m <= _ => pose proof (uint_value_le x m) as Hle
       end.
  all: match goal with
       | |- context [?a - 48] =>
           let v := eval vm_compute in (a - 48) in change (a - 48) with v
       end.
  all: unfold strconv.maxUint64 in *;
       change (2 ^ 64) with 18446744073709551616 in *.
  all: change ((18446744073709551616 - 1) / 10 + 1) with 1844674407370955162.
  all: rewrite Z.mod_small by lia.
  all: match goal with |- context [10 <=? ?k] => destruct (Z.leb_spec 10 k); [lia|] end.
  all: match goal with
       | |- context [?c <=? ?x] => destruct (Z.leb_spec c x); [lia|]
       end.
  all: match goal with
       | |- context [?a <? ?b] => destruct (Z.ltb_spec a b); [lia|]
       end.
  all: match goal with
       | |- context [?a <? ?b] => destruct (Z.ltb_spec a b); [lia|]
       end.
  all: cbn [orb].
  all: match goal with
       | |- strconv.ParseUint_loop _ ?m = (uint_value _ ?m', _) =>
           replace m with m' by lia
       end.
  all: apply IHd; lia.
Qed.

(** Digits most significant first, against the digits least significant
    first of the standard library. *)
Lemma uint_value_revapp (l : Decimal.uint) :
  forall (d : Decimal.uint) (n : Z),
    uint_value (Decimal.revapp l d) n
    = uint_value d (n * 10 ^ Z.of_nat (Decimal.nb_digits l)
                    + Z.of_N (DecimalPos.Unsigned.of_lu l)).
Proof.
  induction l; intros d' n;
    cbn [Decimal.revapp Decimal.nb_digits DecimalPos.Unsigned.of_lu].
  { f_equal. change (10 ^ Z.of_nat 0) with 1. lia. }
  all: rewrite IHl; cbn [uint_value]; f_equal;
       rewrite Nat2Z.inj_succ, Z.pow_succ_r by lia; lia.
Qed.

Lemma uint_value_to_uint (p : positive) : uint_value (Pos.to_uint p) 0 = Z.pos p.
Proof.
  unfold Pos.to_uint, Decimal.rev. rewrite uint_value_revapp. cbn [uint_value].
  rewrite <- DecimalPos.Unsigned.of_lu_rev. fold (Decimal.rev (Pos.to_little_uint p)).
  fold (Pos.to_uint p). rewrite DecimalPos.Unsigned.of_to. reflexivity.
Qed.

(** What [FormatInt] writes for a positive number starts with a digit. *)
Lemma string_of_uint_head (d : Decimal.uint) :
  d <> Decimal.Nil ->
  exists c rest,
    NilEmpty.string_of_uint d = String c rest
    /\ (byte_val c =? 43) = false /\ (byte_val c =? 45) = false.
Proof.
  destruct d; [congruence|..]; intros _; eexists _, _; repeat split.
Qed.

Lemma ParseUint_to_uint (p : positive) :
  Z.pos p <= strconv.maxUint64 ->
  strconv.ParseUint (NilEmpty.string_of_uint (Pos.to_uint p)) = (Z.pos p, None).
Proof.
  intros Hmax.
  destruct (string_of_uint_head (Pos.to_uint p) (DecimalPos.Unsigned.to_uint_nonnil p))
    as (c & rest & Hs & _ & _).
  unfold strconv.ParseUint.
  destruct (NilEmpty.string_of_uint (Pos.to_uint p)) eqn:Hstr; [discriminate|].
  rewrite <- Hstr, ParseUint_loop_digits; rewrite ?uint_value_to_uint; try reflexivity; lia.
Qed.

(** [ParseInt] reads back every [int64] that [FormatInt] writes. *)
Lemma ParseInt_FormatInt (i : Z) :
  - 2 ^ 63 <= i <= 2 ^ 63 - 1 -> strconv.ParseInt (strconv.FormatInt i) = (i, None).
Proof.
  intros Hi. change (2 ^ 63) with 9223372036854775808 in Hi.
  unfold strconv.FormatInt, Z.to_int. destruct i as [|p|p]; [reflexivity|..].
  - unfold NilZero.string_of_int, NilZero.string_of_uint.
    pose proof (DecimalPos.Unsigned.to_uint_nonnil p) as Hnil.
    destruct (string_of_uint_head _ Hnil) as (c & rest & Hs & H43 & H45).
    pose proof (ParseUint_to_uint p) as Hparse. rewrite Hs in Hparse.
    destruct (Pos.to_uint p); [congruence|..];
      rewrite Hs; unfold strconv.ParseInt; rewrite H43, H45; cbn [orb];
      rewrite Hparse by (unfold strconv.maxUint64; lia);
      change (2 ^ 63) with 9223372036854775808; cbn [negb andb];
      (destruct (Z.leb_spec 9223372036854775808 (Z.pos p)); [lia | reflexivity]).
  - unfold NilZero.string_of_int, NilZero.string_of_uint.
    pose proof (DecimalPos.Unsigned.to_uint_nonnil p) as Hnil.
    pose proof (ParseUint_to_uint p) as Hparse.
    destruct (Pos.to_uint p); [congruence|..];
      unfold strconv.ParseInt; eval_byte; cbn [Z.eqb orb Pos.eqb];
      rewrite Hparse by (unfold strconv.maxUint64; lia);
      change (2 ^ 63) with 9223372036854775808; cbn [negb andb];
      (destruct (Z.ltb_spec 9223372036854775808 (Z.pos p)); [lia | reflexivity]).
Qed.

End Decimal.

Lemma int64_small (z : Z) : - 2 ^ 63 <= z < 2 ^ 63 -> int64 z = z.
Proof.
  intros Hz. unfold int64. change (2 ^ 63) with 9223372036854775808 in *.
  change (2 ^ 64) with 18446744073709551616. rewrite Z.mod_small; lia.
Qed.

(** X20: A count that [DeadLetter] itself could have written, the decimal
    text of an [int64] below the largest, is read back and republished as
    the text of the next number; so a message without a count that is
    dead-lettered and redelivered [n] times in a row carries the count
    [n]. *)
Theorem DeadLetter_count_increments (env : Env) (w : World) (s : Service.t) (m : Message.t)
    (l dl : loc) (c : error) (project text : string) (i : Z) :
  Service.DeadLetterChannel s = Some dl ->
  Service.Client s = Some project ->
  trimLeftBytes (Error (Sprintf env) c) 1024 = Ret text ->
  map_content w (Message.Attributes m) !! "deadLetterCount" = Some (strconv.FormatInt i) ->
  - 2 ^ 63 <= i < 2 ^ 63 - 1 ->
  (exists topic content disposition,
      calls (snd (DeadLetter env (RichMessage.mk (Some m) (Some s) (Some l)) (Some c) w))
      = calls w ++ [CPublish topic (Message.Data m) (length (maps w)) content; disposition]
      /\ content !! "deadLetterCount" = Some (strconv.FormatInt (i + 1)))
  /\ (forall (original : gmap string string) (id topicID subID cause : string) (n : nat),
        original !! "deadLetterCount" = None ->
        (0 < n)%nat ->
        Z.of_nat n <= 2 ^ 63 - 1 ->
        Nat.iter n (fun attrs => dead_letter_attributes attrs id topicID subID cause) original
        !! "deadLetterCount" = Some (strconv.FormatInt (Z.of_nat n))).
Proof.
  intros Hdl Hclient Htext Hcount Hi. split.
  - pose proof (DeadLetter_run env w s m l dl c project text Hdl Hclient Htext) as Hrun.
    cbv zeta in Hrun.
    set (attrs := dead_letter_attributes _ _ _ _ _) in Hrun.
    set (topic := "projects/" +:+ project +:+ "/topics/" +:+ Channel.TopicID (chans w dl))
      in Hrun.
    exists topic, attrs.
    exists (match Publish_Get env (calls w) topic (Message.Data m) attrs with
            | Some _ => CNack (Message.ID m)
            | None => CAck (Message.ID m)
            end).
    split.
    + rewrite Hrun. destruct (Publish_Get env (calls w) topic (Message.Data m) attrs);
        reflexivity.
    + subst attrs. rewrite dead_letter_attributes_count, Hcount.
      rewrite ParseInt_FormatInt by lia. by rewrite int64_small by lia.
  - intros original id topicID subID cause n Hnone Hpos Hmax.
    destruct n as [|n]; [lia|]. clear Hpos.
    induction n as [|n IH].
    + cbn [Nat.iter nat_rect]. by rewrite dead_letter_attributes_count, Hnone.
    + rewrite Nat.iter_succ. cbv beta.
      rewrite dead_letter_attributes_count, IH by lia.
      rewrite ParseInt_FormatInt by lia. rewrite int64_small by lia.
      do 2 f_equal. lia.
Qed.

Lemma DeadLetter_count_increments_witness :
  exists topic content disposition,
    calls (snd (DeadLetter Fixture.env0 (Fixture.rich true) (Some Fixture.errTest)
                  (Scenario.counted "41")))
    = [CPublish topic "payload" 1%nat content; disposition]
    /\ content !! "deadLetterCount" = Some "42".
Proof.
  apply (proj1 (DeadLetter_count_increments Fixture.env0 (Scenario.counted "41")
                  (Fixture.service true) Fixture.message 0%nat 2%nat Fixture.errTest
                  "metrix-io" "test error" 41 eq_refl eq_refl eq_refl eq_refl
                  ltac:(change (2 ^ 63) with 9223372036854775808; lia))).
Defined.


